(** * Gesture classification, control binding and geospatial placement

    A shallow embedding of the algorithmic core of the globe visualiser:

    - [components/HandController.tsx]: the per-frame gesture classifier and
      its change-detection throttle ([predictWebcam]);
    - [App.tsx] ([AppContent]): the effect that binds a gesture state to the
      Leva controls ([autoRotate], [pvScale]);
    - [components/Earth.tsx] and [components/SolarPanels.tsx]: latitude /
      longitude projection, surface orientation and the smoothed batch scale.

    Number model.  A JavaScript [number] is read as a real number: [+], [-],
    [*], [/], [Math.sqrt], [Math.sin], [Math.cos] and [Math.PI] are the exact
    operations of [R].  Rounding, [NaN] and signed zeros of IEEE doubles are
    outside this model. *)

From Stdlib Require Import Reals Lra Lia List Bool String.
From Stdlib Require Import DecimalString DecimalNat.
Import ListNotations.
Open Scope R_scope.

(** ** JavaScript numeric primitives *)

Module Js.

(** [a < b] as a boolean. *)
Definition ltb (a b : R) : bool := if Rlt_dec a b then true else false.

(** [a > b] as a boolean. *)
Definition gtb (a b : R) : bool := ltb b a.

(** [a !== b] on numbers. *)
Definition neqb (a b : R) : bool := if Req_dec_T a b then false else true.

(** [Math.hypot(a, b)]. *)
Definition hypot (a b : R) : R := sqrt (a * a + b * b).

(** [a || b] on numbers: [b] when [a] is zero. *)
Definition or_else (a b : R) : R := if Req_dec_T a 0 then b else a.

End Js.

(** ** types.ts *)

Inductive ViewMode := GLOBAL | CHINA | HOBQ | PV_FOCUS.

Record Point2 := { px : R; py : R }.

Record HandGestureState := {
  isPalmOpen : bool;
  isFist : bool;
  isPinching : bool;
  pinchDistance : R;
  handPosition : Point2
}.

(** One landmark of the detector's result (normalized image coordinates). *)
Record NormalizedLandmark := { lx : R; ly : R; lz : R }.

(** ** components/HandController.tsx *)

Module HandController.

(** The value both [previousStateRef] and the no-hand branch start from. *)
Definition neutral : HandGestureState :=
  {| isPalmOpen := false; isFist := false; isPinching := false;
     pinchDistance := 0; handPosition := {| px := 0.5; py := 0.5 |} |}.

(** The "Gesture Logic" block of [predictWebcam] for the first detected
    hand.  Reading a landmark index that the array does not have makes the
    property access throw; the surrounding [try] catches it, which is
    [None] here. *)
Definition classify (landmarks : list NormalizedLandmark)
  : option HandGestureState :=
  match nth_error landmarks 4, nth_error landmarks 8,
        nth_error landmarks 20, nth_error landmarks 0 with
  | Some thumbTip, Some indexTip, Some pinkyTip, Some wrist =>
      let pinchDist :=
        Js.hypot (lx thumbTip - lx indexTip) (ly thumbTip - ly indexTip) in
      let isPinching := Js.ltb pinchDist 0.08 in
      let dIndex :=
        Js.hypot (lx indexTip - lx wrist) (ly indexTip - ly wrist) in
      let dPinky :=
        Js.hypot (lx pinkyTip - lx wrist) (ly pinkyTip - ly wrist) in
      let isFist := Js.ltb dIndex 0.15 && Js.ltb dPinky 0.15 in
      let isPalmOpen :=
        negb isFist && negb isPinching && Js.gtb dIndex 0.2 in
      let cursorX := 1 - lx indexTip in
      let cursorY := ly indexTip in
      Some {| isPalmOpen := isPalmOpen; isFist := isFist;
              isPinching := isPinching; pinchDistance := pinchDist;
              handPosition := {| px := cursorX; py := cursorY |} |}
  | _, _, _, _ => None
  end.

(** The three distances the classifier derives, for stating properties. *)
Definition pinchDistOf (thumbTip indexTip : NormalizedLandmark) : R :=
  Js.hypot (lx thumbTip - lx indexTip) (ly thumbTip - ly indexTip).

Definition wristDistOf (tip wrist : NormalizedLandmark) : R :=
  Js.hypot (lx tip - lx wrist) (ly tip - ly wrist).

(** [landmarks] carries the four points the classifier reads, at the
    detector's indices: wrist 0, thumb tip 4, index tip 8, pinky tip 20. *)
Definition tracked (landmarks : list NormalizedLandmark)
    (wrist thumbTip indexTip pinkyTip : NormalizedLandmark) : Prop :=
  nth_error landmarks 0 = Some wrist /\
  nth_error landmarks 4 = Some thumbTip /\
  nth_error landmarks 8 = Some indexTip /\
  nth_error landmarks 20 = Some pinkyTip.

(** A full 21-point hand with the four points the classifier reads at
    their indices and every other joint at the wrist. *)
Definition handOf (wrist thumbTip indexTip pinkyTip : NormalizedLandmark)
  : list NormalizedLandmark :=
  [wrist; wrist; wrist; wrist; thumbTip; wrist; wrist; wrist; indexTip]
  ++ repeat wrist 11 ++ [pinkyTip].

(** A landmark in the image plane. *)
Definition at2 (a b : R) : NormalizedLandmark :=
  {| lx := a; ly := b; lz := 0 |}.

(** How many of the three gesture flags a state raises. *)
Definition flagCount (s : HandGestureState) : nat :=
  Nat.b2n (isPinching s) + Nat.b2n (isFist s) + Nat.b2n (isPalmOpen s).

(** [newState] of one frame: the first hand classified, or the neutral
    state when [result.landmarks] is empty. *)
Definition newStateOf (hands : list (list NormalizedLandmark))
  : option HandGestureState :=
  match hands with
  | landmarks :: _ => classify landmarks
  | [] => Some neutral
  end.

(** [hasChanged] of the "Throttle updates" block. *)
Definition hasChanged (prev newState : HandGestureState) : bool :=
  negb (Bool.eqb (isPalmOpen prev) (isPalmOpen newState))
  || negb (Bool.eqb (isFist prev) (isFist newState))
  || negb (Bool.eqb (isPinching prev) (isPinching newState))
  || Js.gtb (Rabs (pinchDistance prev - pinchDistance newState)) 0.05.

(** The refs the detection loop keeps between frames. *)
Record Refs := {
  lastVideoTime : R;
  previousState : HandGestureState
}.

Definition initialRefs : Refs :=
  {| lastVideoTime := -1; previousState := neutral |}.

(** The throttle: the new [previousStateRef.current] and the state passed
    to [onGestureUpdate], if any. *)
Definition throttle (prev newState : HandGestureState)
  : HandGestureState * option HandGestureState :=
  if hasChanged prev newState then (newState, Some newState)
  else (prev, None).

(** What one animation frame sees of the video element and the detector:
    [videoMounted] and [landmarkerLoaded] say that [videoRef.current] and
    [landmarkerRef.current] are set, [detected] is [result.landmarks]. *)
Record Frame := {
  cameraReady : bool;
  videoMounted : bool;
  landmarkerLoaded : bool;
  paused : bool;
  ended : bool;
  videoWidth : R;
  videoHeight : R;
  currentTime : R;
  detected : list (list NormalizedLandmark)
}.

(** One call of [predictWebcam]: the refs afterwards and the emission. *)
Definition predictWebcam (refs : Refs) (f : Frame)
  : Refs * option HandGestureState :=
  if cameraReady f && videoMounted f && landmarkerLoaded f
     && negb (paused f) && negb (ended f) then
    if Js.gtb (videoWidth f) 0 && Js.gtb (videoHeight f) 0 then
      if Js.neqb (currentTime f) (lastVideoTime refs) then
        match newStateOf (detected f) with
        | Some newState =>
            let '(prev', out) := throttle (previousState refs) newState in
            ({| lastVideoTime := currentTime f; previousState := prev' |},
             out)
        | None =>
            ({| lastVideoTime := currentTime f;
                previousState := previousState refs |}, None)
        end
      else (refs, None)
    else (refs, None)
  else (refs, None).

(** The frame passes every gate of [predictWebcam]: camera ready, video
    playing with valid dimensions, and a video time not yet processed. *)
Definition processed (refs : Refs) (f : Frame) : Prop :=
  cameraReady f = true /\ videoMounted f = true /\
  landmarkerLoaded f = true /\ paused f = false /\ ended f = false /\
  videoWidth f > 0 /\ videoHeight f > 0 /\
  currentTime f <> lastVideoTime refs.

(** The three boolean flags of two states agree. *)
Definition sameFlags (a b : HandGestureState) : Prop :=
  isPalmOpen a = isPalmOpen b /\ isFist a = isFist b /\
  isPinching a = isPinching b.

(** A playing 640 x 480 video at time [t] in which the detector found
    [hands]. *)
Definition frameOf (t : R) (hands : list (list NormalizedLandmark)) : Frame :=
  {| cameraReady := true; videoMounted := true; landmarkerLoaded := true;
     paused := false; ended := false;
     videoWidth := 640; videoHeight := 480; currentTime := t;
     detected := hands |}.

(** An extended hand whose thumb tip is [d] below the index tip. *)
Definition pinchHand (d : R) : list NormalizedLandmark :=
  handOf (at2 0.5 0.9) (at2 0.5 (0.5 + d)) (at2 0.5 0.5) (at2 0.7 0.6).

(** The state the classifier returns for such a hand when [d < 0.08]. *)
Definition pinchState (d : R) : HandGestureState :=
  {| isPalmOpen := false; isFist := false; isPinching := true;
     pinchDistance := d; handPosition := {| px := 1 - 0.5; py := 0.5 |} |}.

(** The refs after [prev] was emitted for video time [t]. *)
Definition refsAfter (t : R) (prev : HandGestureState) : Refs :=
  {| lastVideoTime := t; previousState := prev |}.

End HandController.

(** ** App.tsx: the controls and the gesture effect *)

Module App.

Inductive Layer := Mean | Slope.

(** The values of the Leva store created by [useControls]. *)
Record Controls := {
  viewMode : ViewMode;
  activeLayer : Layer;
  autoRotate : bool;
  demStrength : R;
  pvScale : R;
  particlesEnabled : bool;
  highlightColor : string;
  pvColor : string
}.

Definition initialControls : Controls :=
  {| viewMode := CHINA; activeLayer := Mean; autoRotate := true;
     demStrength := 1.5; pvScale := 0.1; particlesEnabled := true;
     highlightColor := "#00ffcc"; pvColor := "#0066cc" |}.

(** The partial objects the effect passes to [setControls]. *)
Inductive Patch :=
| SetAutoRotate (b : bool)
| SetPvScale (v : R).

(** [setControls(patch)]: the named key is replaced, the others kept. *)
Definition setControls (c : Controls) (p : Patch) : Controls :=
  match p with
  | SetAutoRotate b =>
      {| viewMode := viewMode c; activeLayer := activeLayer c;
         autoRotate := b; demStrength := demStrength c;
         pvScale := pvScale c; particlesEnabled := particlesEnabled c;
         highlightColor := highlightColor c; pvColor := pvColor c |}
  | SetPvScale v =>
      {| viewMode := viewMode c; activeLayer := activeLayer c;
         autoRotate := autoRotate c; demStrength := demStrength c;
         pvScale := v; particlesEnabled := particlesEnabled c;
         highlightColor := highlightColor c; pvColor := pvColor c |}
  end.

(** "1. Rotation Control": the [setControls] calls of the first [if]. *)
Definition rotationControl (gestureState : HandGestureState)
    (currentControls : Controls) : list Patch :=
  if isPalmOpen gestureState then
    if negb (autoRotate currentControls) then [SetAutoRotate true] else []
  else if isFist gestureState then
    if autoRotate currentControls then [SetAutoRotate false] else []
  else [].

(** [newScale] of "2. Pinch to Scale PV". *)
Definition newScaleOf (currentControls : Controls) : R :=
  Rmin 1 (Rmax 0 (pvScale currentControls + 0.02)).

(** "2. Pinch to Scale PV": the [setControls] call of the second [if]. *)
Definition pinchControl (gestureState : HandGestureState)
    (currentControls : Controls) : list Patch :=
  if isPinching gestureState then
    let newScale := newScaleOf currentControls in
    if Js.gtb (Rabs (newScale - pvScale currentControls)) 0.01
    then [SetPvScale newScale] else []
  else [].

(** The [setControls] calls of one run of the gesture effect, in order.
    Both blocks read the same snapshot [currentControls]. *)
Definition gestureEffect (gestureState : HandGestureState)
    (currentControls : Controls) : list Patch :=
  rotationControl gestureState currentControls
  ++ pinchControl gestureState currentControls.

(** The controls after one run of the effect. *)
Definition applyGesture (c : Controls) (gestureState : HandGestureState)
  : Controls :=
  fold_left setControls (gestureEffect gestureState c) c.

(** The controls after the effect has run for each state of a sequence. *)
Definition applyGestures (c : Controls) (gs : list HandGestureState)
  : Controls :=
  fold_left applyGesture gs c.

End App.

(** ** three.js routines called by the components

    [Vector3] and [Quaternion] belong to the three.js library, which the
    components import; the definitions below follow the library's
    implementation of the methods the components call. *)

Module Three.

Record Vector3 := { x : R; y : R; z : R }.

Record Quaternion := { qx : R; qy : R; qz : R; qw : R }.

(** [Vector3.length()]. *)
Definition length (v : Vector3) : R :=
  sqrt (x v * x v + y v * y v + z v * z v).

(** [Vector3.multiplyScalar(s)]. *)
Definition multiplyScalar (v : Vector3) (s : R) : Vector3 :=
  {| x := x v * s; y := y v * s; z := z v * s |}.

(** [Vector3.divideScalar(s)]: multiplication by [1 / s]. *)
Definition divideScalar (v : Vector3) (s : R) : Vector3 :=
  multiplyScalar v (1 / s).

(** [Vector3.normalize()]: [divideScalar(this.length() || 1)]. *)
Definition normalize (v : Vector3) : Vector3 :=
  divideScalar v (Js.or_else (length v) 1).

(** [Vector3.dot(v)]. *)
Definition dot (a b : Vector3) : R :=
  x a * x b + y a * y b + z a * z b.

(** [Vector3.lerp(v, alpha)]: each component moves by
    [(v - this) * alpha]. *)
Definition lerp (this v : Vector3) (alpha : R) : Vector3 :=
  {| x := x this + (x v - x this) * alpha;
     y := y this + (y v - y this) * alpha;
     z := z this + (z v - z this) * alpha |}.

(** [Quaternion.length()]. *)
Definition qlength (q : Quaternion) : R :=
  sqrt (qx q * qx q + qy q * qy q + qz q * qz q + qw q * qw q).

(** [Quaternion.normalize()]: the identity when the length is zero. *)
Definition qnormalize (q : Quaternion) : Quaternion :=
  let l := qlength q in
  if Req_dec_T l 0 then {| qx := 0; qy := 0; qz := 0; qw := 1 |}
  else
    let l := 1 / l in
    {| qx := qx q * l; qy := qy q * l; qz := qz q * l; qw := qw q * l |}.

(** [Quaternion.setFromUnitVectors(vFrom, vTo)].  [EPS] is the library's
    threshold under which the two directions count as opposite
    ([Number.EPSILON], or a larger constant in other releases). *)
Definition setFromUnitVectors (EPS : R) (vFrom vTo : Vector3) : Quaternion :=
  let r := dot vFrom vTo + 1 in
  qnormalize
    (if Js.ltb r EPS then
       if Js.gtb (Rabs (x vFrom)) (Rabs (z vFrom)) then
         {| qx := - y vFrom; qy := x vFrom; qz := 0; qw := 0 |}
       else
         {| qx := 0; qy := - z vFrom; qz := y vFrom; qw := 0 |}
     else
       {| qx := y vFrom * z vTo - z vFrom * y vTo;
          qy := z vFrom * x vTo - x vFrom * z vTo;
          qz := x vFrom * y vTo - y vFrom * x vTo;
          qw := r |}).

(** [Vector3.applyQuaternion(q)]: the vector rotated by the unit
    quaternion [q]. *)
Definition applyQuaternion (v : Vector3) (q : Quaternion) : Vector3 :=
  let tx := 2 * (qy q * z v - qz q * y v) in
  let ty := 2 * (qz q * x v - qx q * z v) in
  let tz := 2 * (qx q * y v - qy q * x v) in
  {| x := x v + qw q * tx + qy q * tz - qz q * ty;
     y := y v + qw q * ty + qz q * tx - qx q * tz;
     z := z v + qw q * tz + qx q * ty - qy q * tx |}.

(** [Number.EPSILON], the gap between 1 and the next double. *)
Definition Number_EPSILON : R := / 2 ^ 52.

End Three.

(** ** constants.ts *)

Record LatLon := { lat : R; lon : R }.

Definition EARTH_RADIUS : R := 50.

Definition HOBQ_CENTER : LatLon := {| lat := 40.2; lon := 108.5 |}.

Inductive StationType := Small | Medium | Large.

Record PVStationData := {
  id : string;
  station : LatLon;
  area : R;
  type : StationType
}.

(** ** components/Earth.tsx and components/SolarPanels.tsx *)

Module Earth.

Import Three.

(** The latitude / longitude conversion that [HobqDataOverlay] and
    [SolarPanels] both write out, with the radius as an argument. *)
Definition project (coord : LatLon) (r : R) : Vector3 :=
  let phi := (90 - lat coord) * (PI / 180) in
  let theta := (lon coord + 180) * (PI / 180) in
  {| x := - (r * sin phi * cos theta);
     y := r * cos phi;
     z := r * sin phi * sin theta |}.

(** The canonical up-axis. *)
Definition up : Vector3 := {| x := 0; y := 1; z := 0 |}.

(** "Rotate to align with the surface": the quaternion both components
    build from a position. *)
Definition surfaceOrientation (EPS : R) (position : Vector3) : Quaternion :=
  let target := normalize position in
  setFromUnitVectors EPS up target.

(** [position] of [HobqDataOverlay]. *)
Definition overlayPosition : Vector3 :=
  let r := EARTH_RADIUS + 0.3 in
  project HOBQ_CENTER r.

(** [quaternion] of [HobqDataOverlay]. *)
Definition overlayQuaternion (EPS : R) : Quaternion :=
  surfaceOrientation EPS overlayPosition.

(** The transform [SolarPanels] writes for one station, as [updateMatrix]
    reads it: the quaternion set by [lookAt] has been overwritten by
    [quaternion.copy]. *)
Record Object3D := {
  position : Vector3;
  quaternion : Quaternion;
  scale : Vector3
}.

Definition stationPosition (s : PVStationData) : Vector3 :=
  let r := EARTH_RADIUS + 0.05 in
  project (station s) r.

Definition stationSize (s : PVStationData) : R :=
  match type s with
  | Large => 0.3
  | Medium => 0.2
  | Small => 0.1
  end.

Definition stationTransform (EPS : R) (s : PVStationData) : Object3D :=
  let size := stationSize s in
  {| position := stationPosition s;
     quaternion := surfaceOrientation EPS (stationPosition s);
     scale := {| x := size; y := size; z := size |} |}.

(** The [useFrame] callback of [SolarPanels]: [meshScale] is
    [meshRef.current.scale], absent while the mesh is not mounted. *)
Definition frameScale (meshScale : option Vector3) (scaleMultiplier : R)
  : option Vector3 :=
  match meshScale with
  | Some currentScale =>
      let targetScale := 1 + scaleMultiplier * 2 in
      Some (lerp currentScale
              {| x := targetScale; y := targetScale; z := targetScale |}
              0.1)
  | None => None
  end.

End Earth.

(** ** The detection loop and its consumer *)

Module Loop.

Import HandController App.

(** [predictWebcam] called once per animation frame: the refs afterwards and
    the states passed to [onGestureUpdate], oldest first. *)
Fixpoint run (refs : Refs) (frames : list Frame)
  : Refs * list HandGestureState :=
  match frames with
  | [] => (refs, [])
  | f :: rest =>
      let '(refs1, out) := predictWebcam refs f in
      let '(refs2, outs) := run refs1 rest in
      (refs2, match out with Some s => s :: outs | None => outs end)
  end.

(** [AppContent] with its [HandController]: the refs of the detection loop,
    the [gestureState] of [useState] and the values of the Leva store. *)
Record Model := {
  refs : Refs;
  gestureState : HandGestureState;
  controls : Controls
}.

Definition initialModel : Model :=
  {| refs := initialRefs; gestureState := neutral;
     controls := initialControls |}.

(** One animation frame of the application: [onGestureUpdate] is
    [setGestureState], and a new [gestureState] makes the gesture effect run
    once on the current controls. *)
Definition onFrame (m : Model) (f : Frame) : Model :=
  let '(refs1, out) := predictWebcam (refs m) f in
  match out with
  | Some g =>
      {| refs := refs1; gestureState := g;
         controls := applyGesture (controls m) g |}
  | None =>
      {| refs := refs1; gestureState := gestureState m;
         controls := controls m |}
  end.

Definition onFrames (m : Model) (frames : list Frame) : Model :=
  fold_left onFrame frames m.

(** Each state of [outs] passes the change test against the one before
    it, [prev] being the one before the first. *)
Fixpoint eachChanged (prev : HandGestureState)
    (outs : list HandGestureState) : Prop :=
  match outs with
  | [] => True
  | s :: rest => hasChanged prev s = true /\ eachChanged s rest
  end.

(** [q] is [p] moved by [(dx, dy)] in the image; nothing is said of the
    depth [lz] of either. *)
Definition movedBy (dx dy : R) (p q : NormalizedLandmark) : Prop :=
  lx q = lx p + dx /\ ly q = ly p + dy.

(** The refs of the gesture logic together with [requestRef], which the
    callback overwrites in its last statement on every call, outside the
    gates. *)
Record CallRefs := {
  gestureRefs : Refs;
  requestRef : R
}.

(** One whole call of [predictWebcam]; [handle] is what
    [requestAnimationFrame] returns for the next call. *)
Definition predictWebcamCall (cr : CallRefs) (f : Frame) (handle : R)
  : CallRefs * option HandGestureState :=
  let '(refs1, out) := predictWebcam (gestureRefs cr) f in
  ({| gestureRefs := refs1; requestRef := handle |}, out).

(** A landmark mirrored left to right in the image. *)
Definition mirror (p : NormalizedLandmark) : NormalizedLandmark :=
  {| lx := 1 - lx p; ly := ly p; lz := lz p |}.

End Loop.

(** ** constants.ts: the generated stations *)

Module Constants.

(** ["pv-" + i], the template string of a station id. *)
Definition stationId (i : nat) : string :=
  ("pv-" ++ NilEmpty.string_of_uint (Nat.to_uint i))%string.

(** The callback of [Array.from({ length: 50 }).map]: station [i], built
    from the draws of [Math.random] in the order the object literal makes
    them.  [rand k] is the [k]-th draw of the run and [n] the number of draws
    made so far; the second draw for [type] is made only when the first does
    not give ['Large']. *)
Definition mockStation (rand : nat -> R) (n i : nat)
  : PVStationData * nat :=
  let lat := 40.0 + (rand n - 0.5) * 0.8 in
  let lon := 107.5 + (rand (n + 1)%nat - 0.5) * 2.5 in
  let area := 0.5 + rand (n + 2)%nat * 5 in
  if Js.gtb (rand (n + 3)%nat) 0.8 then
    ({| id := stationId i; station := {| lat := lat; lon := lon |};
        area := area; type := Large |}, (n + 4)%nat)
  else if Js.gtb (rand (n + 4)%nat) 0.5 then
    ({| id := stationId i; station := {| lat := lat; lon := lon |};
        area := area; type := Medium |}, (n + 5)%nat)
  else
    ({| id := stationId i; station := {| lat := lat; lon := lon |};
        area := area; type := Small |}, (n + 5)%nat).

(** [count] stations from index [i] on, after [n] draws. *)
Fixpoint mockStations (rand : nat -> R) (n i count : nat)
  : list PVStationData :=
  match count with
  | O => []
  | S k =>
      let '(s, n1) := mockStation rand n i in
      s :: mockStations rand n1 (S i) k
  end.

Definition MOCK_PV_STATIONS (rand : nat -> R) : list PVStationData :=
  mockStations rand 0 0 50.

(** Every draw of [Math.random] lies in [0, 1). *)
Definition uniform (rand : nat -> R) : Prop :=
  forall k, 0 <= rand k < 1.

End Constants.

(** ** components/Earth.tsx and components/SolarPanels.tsx: the frame loop *)

Module Scene.

Import Three Earth.

Definition isGlobal (viewMode : ViewMode) : bool :=
  match viewMode with GLOBAL => true | _ => false end.

(** The [useFrame] callback of [Earth]: [rotationY] is
    [earthRef.current.rotation.y], absent while the sphere is not mounted. *)
Definition earthFrame (rotationY : option R) (autoRotate : bool)
    (viewMode : ViewMode) : option R :=
  match rotationY with
  | Some ry =>
      if autoRotate && isGlobal viewMode then Some (ry + 0.0005)
      else Some ry
  | None => None
  end.

(** [n] frames of the globe with the same props. *)
Fixpoint earthFrames (n : nat) (rotationY : option R) (autoRotate : bool)
    (viewMode : ViewMode) : option R :=
  match n with
  | O => rotationY
  | S k => earthFrames k (earthFrame rotationY autoRotate viewMode)
             autoRotate viewMode
  end.

(** The [useFrame] callback of [SolarPanels] run once per frame on a
    mounted mesh, with the [scaleMultiplier] prop of each frame. *)
Fixpoint scaleFrames (currentScale : Vector3) (multipliers : list R)
  : Vector3 :=
  match multipliers with
  | [] => currentScale
  | m :: rest =>
      match frameScale (Some currentScale) m with
      | Some s => scaleFrames s rest
      | None => currentScale
      end
  end.

(** The scale a three.js object starts with. *)
Definition unitScale : Vector3 := {| x := 1; y := 1; z := 1 |}.

(** The matrices [SolarPanels] writes in its layout effect, one per
    station, in order. *)
Definition stationTransforms (EPS : R) (stations : list PVStationData)
  : list Object3D :=
  map (stationTransform EPS) stations.

End Scene.

(** * Properties *)

(** ** Comparisons and distances *)

Lemma ltb_true_iff (a b : R) : Js.ltb a b = true <-> a < b.
Proof.
  unfold Js.ltb. destruct (Rlt_dec a b); split; intros; try easy.
Qed.

Lemma ltb_false_iff (a b : R) : Js.ltb a b = false <-> b <= a.
Proof.
  unfold Js.ltb. destruct (Rlt_dec a b); split; intros; try easy; lra.
Qed.

Lemma gtb_true_iff (a b : R) : Js.gtb a b = true <-> a > b.
Proof. unfold Js.gtb. rewrite ltb_true_iff. lra. Qed.

Lemma gtb_false_iff (a b : R) : Js.gtb a b = false <-> a <= b.
Proof. unfold Js.gtb. rewrite ltb_false_iff. lra. Qed.

Lemma neqb_true_iff (a b : R) : Js.neqb a b = true <-> a <> b.
Proof.
  unfold Js.neqb. destruct (Req_dec_T a b); split; intros; try easy.
Qed.

Lemma sum_sq_nonneg (a b : R) : 0 <= a * a + b * b.
Proof. nra. Qed.

Lemma hypot_nonneg (a b : R) : 0 <= Js.hypot a b.
Proof. apply sqrt_pos. Qed.

Lemma hypot_sq (a b : R) : Js.hypot a b * Js.hypot a b = a * a + b * b.
Proof. apply sqrt_def, sum_sq_nonneg. Qed.

(** A distance is decided by comparing squares. *)
Lemma hypot_lt_iff (a b c : R) :
  0 < c -> (Js.hypot a b < c <-> a * a + b * b < c * c).
Proof.
  intros Hc. pose proof (hypot_nonneg a b) as Hn.
  pose proof (hypot_sq a b) as Hs. split; intros H.
  - rewrite <- Hs. nra.
  - destruct (Rlt_dec (Js.hypot a b) c) as [|Hge]; [assumption|].
    exfalso. assert (c <= Js.hypot a b) by lra. nra.
Qed.

Lemma hypot_eq (a b c : R) :
  0 <= c -> a * a + b * b = c * c -> Js.hypot a b = c.
Proof.
  intros Hc H. unfold Js.hypot. apply sqrt_lem_1; auto using sum_sq_nonneg.
Qed.


(** ** The gesture classifier *)

Import HandController.

Lemma tracked_handOf (wrist thumbTip indexTip pinkyTip : NormalizedLandmark) :
  tracked (handOf wrist thumbTip indexTip pinkyTip)
    wrist thumbTip indexTip pinkyTip.
Proof. repeat split. Qed.

Section Classifier.

Variable landmarks : list NormalizedLandmark.
Variables wrist thumbTip indexTip pinkyTip : NormalizedLandmark.
Hypothesis Htracked : tracked landmarks wrist thumbTip indexTip pinkyTip.

(** The classifier's result on a tracked hand, field by field. *)
Lemma classify_tracked :
  classify landmarks =
  Some {| isPalmOpen :=
            negb (Js.ltb (wristDistOf indexTip wrist) 0.15
                  && Js.ltb (wristDistOf pinkyTip wrist) 0.15)
            && negb (Js.ltb (pinchDistOf thumbTip indexTip) 0.08)
            && Js.gtb (wristDistOf indexTip wrist) 0.2;
          isFist := Js.ltb (wristDistOf indexTip wrist) 0.15
                    && Js.ltb (wristDistOf pinkyTip wrist) 0.15;
          isPinching := Js.ltb (pinchDistOf thumbTip indexTip) 0.08;
          pinchDistance := pinchDistOf thumbTip indexTip;
          handPosition := {| px := 1 - lx indexTip; py := ly indexTip |} |}.
Proof.
  destruct Htracked as (Hw & Ht & Hi & Hp).
  unfold classify. rewrite Hw, Ht, Hi, Hp. reflexivity.
Qed.

(** C2: on every detected hand the classifier returns a state whose flags
    are [isPinching = (pinchDist < 0.08)],
    [isFist = (dIndex < 0.15 AND dPinky < 0.15)] and
    [isPalmOpen = (NOT isFist AND NOT isPinching AND dIndex > 0.2)], the
    three distances being the Euclidean distances thumb tip to index tip
    ([pinchDist]), index tip to wrist ([dIndex]) and pinky tip to wrist
    ([dPinky]) in the landmarks' x-y plane. *)
Theorem classify_thresholds :
  pinchDistOf thumbTip indexTip
  = sqrt ((lx thumbTip - lx indexTip) * (lx thumbTip - lx indexTip)
          + (ly thumbTip - ly indexTip) * (ly thumbTip - ly indexTip))
  /\ wristDistOf indexTip wrist
     = sqrt ((lx indexTip - lx wrist) * (lx indexTip - lx wrist)
             + (ly indexTip - ly wrist) * (ly indexTip - ly wrist))
  /\ wristDistOf pinkyTip wrist
     = sqrt ((lx pinkyTip - lx wrist) * (lx pinkyTip - lx wrist)
             + (ly pinkyTip - ly wrist) * (ly pinkyTip - ly wrist))
  /\ exists s, classify landmarks = Some s
     /\ (isPinching s = true <-> pinchDistOf thumbTip indexTip < 0.08)
     /\ (isFist s = true <->
         wristDistOf indexTip wrist < 0.15
         /\ wristDistOf pinkyTip wrist < 0.15)
     /\ (isPalmOpen s = true <->
         isFist s = false /\ isPinching s = false
         /\ wristDistOf indexTip wrist > 0.2)
     /\ pinchDistance s = pinchDistOf thumbTip indexTip.
Proof.
  repeat (split; [reflexivity|]).
  eexists. split; [apply classify_tracked|].
  cbn [isPinching isFist isPalmOpen pinchDistance].
  rewrite <- gtb_true_iff, <- !ltb_true_iff.
  destruct (Js.ltb (wristDistOf indexTip wrist) 0.15),
           (Js.ltb (wristDistOf pinkyTip wrist) 0.15),
           (Js.ltb (pinchDistOf thumbTip indexTip) 0.08),
           (Js.gtb (wristDistOf indexTip wrist) 0.2);
    cbn; intuition discriminate.
Qed.

End Classifier.

(** Deciding a threshold test on a concrete distance. *)
Ltac hypot_decide :=
  unfold pinchDistOf, wristDistOf, at2; cbn [lx ly lz];
  match goal with
  | |- Js.ltb (Js.hypot _ _) _ = true =>
      apply ltb_true_iff, hypot_lt_iff; lra
  | |- Js.hypot _ _ < _ => apply hypot_lt_iff; lra
  | |- Js.hypot _ _ = _ => apply hypot_eq; lra
  end.

(** A curled hand whose thumb tip rests on the index tip: wrist at
    (0.5, 0.6), thumb and index tips at (0.5, 0.5), pinky tip at
    (0.55, 0.55). *)
Lemma fist_with_pinch_flags :
  exists s,
    classify (handOf (at2 0.5 0.6) (at2 0.5 0.5) (at2 0.5 0.5)
                (at2 0.55 0.55)) = Some s
    /\ isPinching s = true /\ isFist s = true /\ ~ (flagCount s <= 1)%nat.
Proof.
  eexists. split; [apply classify_tracked, tracked_handOf|].
  assert (Hp : Js.ltb (pinchDistOf (at2 0.5 0.5) (at2 0.5 0.5)) 0.08 = true)
    by hypot_decide.
  assert (Hi : Js.ltb (wristDistOf (at2 0.5 0.5) (at2 0.5 0.6)) 0.15 = true)
    by hypot_decide.
  assert (Hk : Js.ltb (wristDistOf (at2 0.55 0.55) (at2 0.5 0.6)) 0.15 = true)
    by hypot_decide.
  unfold flagCount. cbn [isPinching isFist isPalmOpen].
  rewrite Hp, Hi, Hk. cbn. repeat split. lia.
Qed.

(** C5, as the code has it: on every detected hand [isPalmOpen] excludes
    the other two flags, so at most two flags are raised and an open palm is
    raised alone; [isFist] and [isPinching] are computed independently and
    are raised together exactly when the thumb tip is within 0.08 of the
    index tip and both the index and the pinky tip are within 0.15 of the
    wrist. *)
Theorem classify_palm_exclusive
    (landmarks : list NormalizedLandmark)
    (wrist thumbTip indexTip pinkyTip : NormalizedLandmark) :
  tracked landmarks wrist thumbTip indexTip pinkyTip ->
  exists s, classify landmarks = Some s
    /\ (isPalmOpen s = true -> isFist s = false /\ isPinching s = false)
    /\ (isPalmOpen s = true -> flagCount s = 1%nat)
    /\ (flagCount s <= 2)%nat
    /\ (isFist s = true /\ isPinching s = true <->
        pinchDistOf thumbTip indexTip < 0.08
        /\ wristDistOf indexTip wrist < 0.15
        /\ wristDistOf pinkyTip wrist < 0.15).
Proof.
  intros Ht. eexists. split; [apply (classify_tracked _ _ _ _ _ Ht)|].
  unfold flagCount. cbn [isPinching isFist isPalmOpen].
  rewrite <- !ltb_true_iff.
  destruct (Js.ltb (wristDistOf indexTip wrist) 0.15),
           (Js.ltb (wristDistOf pinkyTip wrist) 0.15),
           (Js.ltb (pinchDistOf thumbTip indexTip) 0.08),
           (Js.gtb (wristDistOf indexTip wrist) 0.2);
    cbn; repeat split; intros; try lia; try discriminate;
    intuition discriminate.
Qed.

Lemma classify_palm_exclusive_witness :
  exists s,
    classify (handOf (at2 0.5 0.9) (at2 0.3 0.6) (at2 0.5 0.5)
                (at2 0.7 0.6)) = Some s
    /\ (isPalmOpen s = true -> isFist s = false /\ isPinching s = false)
    /\ (isPalmOpen s = true -> flagCount s = 1%nat)
    /\ (flagCount s <= 2)%nat
    /\ (isFist s = true /\ isPinching s = true <->
        pinchDistOf (at2 0.3 0.6) (at2 0.5 0.5) < 0.08
        /\ wristDistOf (at2 0.5 0.5) (at2 0.5 0.9) < 0.15
        /\ wristDistOf (at2 0.7 0.6) (at2 0.5 0.9) < 0.15).
Proof.
  apply (classify_palm_exclusive
           (handOf (at2 0.5 0.9) (at2 0.3 0.6) (at2 0.5 0.5) (at2 0.7 0.6))
           (at2 0.5 0.9) (at2 0.3 0.6) (at2 0.5 0.5) (at2 0.7 0.6)).
  repeat split.
Defined.

Lemma classify_thresholds_witness :
  exists s,
    classify (handOf (at2 0.5 0.9) (at2 0.3 0.6) (at2 0.5 0.5)
                (at2 0.7 0.6)) = Some s
    /\ (isPinching s = true <->
        pinchDistOf (at2 0.3 0.6) (at2 0.5 0.5) < 0.08)
    /\ pinchDistance s = pinchDistOf (at2 0.3 0.6) (at2 0.5 0.5).
Proof.
  destruct (classify_thresholds
              (handOf (at2 0.5 0.9) (at2 0.3 0.6) (at2 0.5 0.5) (at2 0.7 0.6))
              (at2 0.5 0.9) (at2 0.3 0.6) (at2 0.5 0.5) (at2 0.7 0.6))
    as (_ & _ & _ & s & Hs & Hp & _ & _ & Hd).
  - repeat split.
  - exists s. repeat split; try assumption; apply Hp.
Defined.

(** A pinch at distance exactly 0.05 made with the fingers curled: wrist at
    (0.5, 0.6), thumb tip at (0.5, 0.5), index tip at (0.5, 0.55), pinky tip
    at (0.55, 0.55).  The fist flag is raised as well. *)
Lemma pinch_005_with_fist :
  pinchDistOf (at2 0.5 0.5) (at2 0.5 0.55) = 0.05
  /\ exists s,
       classify (handOf (at2 0.5 0.6) (at2 0.5 0.5) (at2 0.5 0.55)
                   (at2 0.55 0.55)) = Some s
       /\ isPinching s = true /\ isFist s = true.
Proof.
  split; [hypot_decide|].
  eexists. split; [apply classify_tracked, tracked_handOf|].
  assert (Hp : Js.ltb (pinchDistOf (at2 0.5 0.5) (at2 0.5 0.55)) 0.08 = true)
    by hypot_decide.
  assert (Hi : Js.ltb (wristDistOf (at2 0.5 0.55) (at2 0.5 0.6)) 0.15 = true)
    by hypot_decide.
  assert (Hk : Js.ltb (wristDistOf (at2 0.55 0.55) (at2 0.5 0.6)) 0.15 = true)
    by hypot_decide.
  cbn [isPinching isFist]. rewrite Hp, Hi, Hk. repeat split.
Qed.

(** C9, as the code has it: on every detected hand with [pinchDist = 0.05]
    the classifier returns [isPinching = true] and [isPalmOpen = false];
    [isFist] does not depend on [pinchDist] and is [false] exactly when the
    index tip or the pinky tip is at least 0.15 away from the wrist. *)
Theorem classify_pinch_005
    (landmarks : list NormalizedLandmark)
    (wrist thumbTip indexTip pinkyTip : NormalizedLandmark) :
  tracked landmarks wrist thumbTip indexTip pinkyTip ->
  pinchDistOf thumbTip indexTip = 0.05 ->
  exists s, classify landmarks = Some s
    /\ isPinching s = true
    /\ isPalmOpen s = false
    /\ (isFist s = false <->
        wristDistOf indexTip wrist >= 0.15
        \/ wristDistOf pinkyTip wrist >= 0.15).
Proof.
  intros Ht Hd. eexists. split; [apply (classify_tracked _ _ _ _ _ Ht)|].
  cbn [isPinching isFist isPalmOpen]. rewrite Hd.
  assert (Hp : Js.ltb 0.05 0.08 = true) by (apply ltb_true_iff; lra).
  rewrite Hp. split; [reflexivity|]. split.
  - now rewrite andb_false_r.
  - rewrite andb_false_iff, !ltb_false_iff. split; intros [H|H]; lra.
Qed.

Lemma classify_pinch_005_witness :
  exists s,
    classify (handOf (at2 0.5 0.9) (at2 0.5 0.5) (at2 0.5 0.55)
                (at2 0.7 0.6)) = Some s
    /\ isPinching s = true
    /\ isPalmOpen s = false
    /\ (isFist s = false <->
        wristDistOf (at2 0.5 0.55) (at2 0.5 0.9) >= 0.15
        \/ wristDistOf (at2 0.7 0.6) (at2 0.5 0.9) >= 0.15).
Proof.
  apply (classify_pinch_005
           (handOf (at2 0.5 0.9) (at2 0.5 0.5) (at2 0.5 0.55) (at2 0.7 0.6))
           (at2 0.5 0.9) (at2 0.5 0.5) (at2 0.5 0.55) (at2 0.7 0.6)).
  - repeat split.
  - unfold pinchDistOf, at2; cbn [lx ly]. apply hypot_eq; lra.
Defined.

(** ** The change-detection throttle *)

Lemma neg_eqb_iff (a b : bool) : negb (Bool.eqb a b) = true <-> a <> b.
Proof. destruct a, b; cbn; split; intros; congruence. Qed.

Lemma hasChanged_true_iff (prev newState : HandGestureState) :
  hasChanged prev newState = true <->
  ~ sameFlags prev newState
  \/ Rabs (pinchDistance newState - pinchDistance prev) > 0.05.
Proof.
  unfold hasChanged, sameFlags.
  rewrite !orb_true_iff, !neg_eqb_iff, gtb_true_iff.
  rewrite (Rabs_minus_sym (pinchDistance prev)).
  destruct (isPalmOpen prev), (isPalmOpen newState), (isFist prev),
    (isFist newState), (isPinching prev), (isPinching newState);
    intuition congruence.
Qed.

Lemma hasChanged_false_iff (prev newState : HandGestureState) :
  hasChanged prev newState = false <->
  sameFlags prev newState
  /\ Rabs (pinchDistance newState - pinchDistance prev) <= 0.05.
Proof.
  unfold hasChanged, sameFlags.
  rewrite !orb_false_iff, !negb_false_iff, !eqb_true_iff, gtb_false_iff.
  rewrite (Rabs_minus_sym (pinchDistance prev)). tauto.
Qed.

(** A frame that passes the gates runs the throttle on its new state. *)
Lemma predictWebcam_processed (refs : Refs) (f : Frame)
    (newState : HandGestureState) :
  processed refs f ->
  newStateOf (detected f) = Some newState ->
  predictWebcam refs f =
  if hasChanged (previousState refs) newState
  then ({| lastVideoTime := currentTime f; previousState := newState |},
        Some newState)
  else ({| lastVideoTime := currentTime f;
           previousState := previousState refs |}, None).
Proof.
  intros (Hc & Hv & Hl & Hp & He & Hw & Hh & Ht) Hn. unfold predictWebcam.
  rewrite Hc, Hv, Hl, Hp, He. cbn [negb andb].
  apply gtb_true_iff in Hw, Hh. rewrite Hw, Hh. cbn [andb].
  apply neqb_true_iff in Ht. rewrite Ht, Hn. unfold throttle.
  destruct (hasChanged (previousState refs) newState); reflexivity.
Qed.

(** C3: on a processed frame the candidate state is passed to the consumer
    if and only if one of the three flags differs from the previously emitted
    state or [|pinchDistance_new - pinchDistance_prev| > 0.05]; the emitted
    state becomes the new reference and otherwise the reference is kept.  In
    particular a candidate with the same flags and a pinch-distance delta of
    0.03 is not emitted, and one with a delta of 0.06 is. *)
Theorem throttle_emits_iff (refs : Refs) (f : Frame)
    (newState : HandGestureState) :
  processed refs f ->
  newStateOf (detected f) = Some newState ->
  let prev := previousState refs in
  let delta := Rabs (pinchDistance newState - pinchDistance prev) in
  let out := predictWebcam refs f in
  (snd out = Some newState <-> ~ sameFlags prev newState \/ delta > 0.05)
  /\ (snd out = None <-> sameFlags prev newState /\ delta <= 0.05)
  /\ previousState (fst out) =
     match snd out with Some s => s | None => prev end
  /\ (sameFlags prev newState -> delta = 0.03 -> snd out = None)
  /\ (sameFlags prev newState -> delta = 0.06 -> snd out = Some newState).
Proof.
  intros Hp Hn prev delta out.
  assert (Hout : out =
    if hasChanged prev newState
    then ({| lastVideoTime := currentTime f; previousState := newState |},
          Some newState)
    else ({| lastVideoTime := currentTime f; previousState := prev |}, None))
    by (apply predictWebcam_processed; assumption).
  pose proof (hasChanged_true_iff prev newState) as Ht.
  pose proof (hasChanged_false_iff prev newState) as Hf.
  fold delta in Ht, Hf. rewrite Hout.
  destruct (hasChanged prev newState); cbn [fst snd previousState].
  - assert (Hc : ~ sameFlags prev newState \/ delta > 0.05)
      by (apply Ht; reflexivity).
    split; [tauto|]. split; [|split; [reflexivity|split]].
    + split; [discriminate|]. intros [Hs Hd]. destruct Hc; [tauto | lra].
    + intros Hs Hd. destruct Hc; [tauto | lra].
    + reflexivity.
  - assert (Hc : sameFlags prev newState /\ delta <= 0.05)
      by (apply Hf; reflexivity).
    split; [|split; [tauto|split; [reflexivity|split]]].
    + split; [discriminate|]. intros [Hs | Hd]; [tauto | lra].
    + reflexivity.
    + intros Hs Hd. lra.
Qed.

(** The state the classifier returns for [pinchHand d], [0 <= d < 0.08]. *)
Lemma classify_pinchHand (d : R) :
  0 <= d < 0.08 -> classify (pinchHand d) = Some (pinchState d).
Proof.
  intros Hd. unfold pinchHand, pinchState.
  rewrite (classify_tracked _ _ _ _ _ (tracked_handOf _ _ _ _)).
  assert (Hp : pinchDistOf (at2 0.5 (0.5 + d)) (at2 0.5 0.5) = d).
  { unfold pinchDistOf, at2; cbn [lx ly]. apply hypot_eq; lra. }
  assert (Hi : wristDistOf (at2 0.5 0.5) (at2 0.5 0.9) = 0.4).
  { unfold wristDistOf, at2; cbn [lx ly]. apply hypot_eq; lra. }
  rewrite Hp, Hi.
  assert (H1 : Js.ltb d 0.08 = true) by (apply ltb_true_iff; lra).
  assert (H2 : Js.ltb 0.4 0.15 = false) by (apply ltb_false_iff; lra).
  rewrite H1, H2. reflexivity.
Qed.

(** A pinch of 0.06 was emitted last and the next frame shows a pinch of
    0.03: nothing is emitted.  A pinch of 0 was emitted last and the next
    frame shows a pinch of 0.06: it is emitted. *)
Lemma throttle_emits_iff_witness :
  snd (predictWebcam (refsAfter 1 (pinchState 0.06))
         (frameOf 2 [pinchHand 0.03])) = None
  /\ snd (predictWebcam (refsAfter 1 (pinchState 0))
            (frameOf 2 [pinchHand 0.06])) = Some (pinchState 0.06).
Proof.
  assert (Hgate : forall s h, processed (refsAfter 1 s) (frameOf 2 h)).
  { intros s h. unfold processed, refsAfter, frameOf; cbn. repeat split; lra. }
  assert (Hflags : forall a b, sameFlags (pinchState a) (pinchState b))
    by (intros a b; repeat split).
  split.
  - apply (throttle_emits_iff (refsAfter 1 (pinchState 0.06))
             (frameOf 2 [pinchHand 0.03]) (pinchState 0.03)).
    + apply Hgate.
    + cbn [frameOf detected newStateOf]. apply classify_pinchHand. lra.
    + apply Hflags.
    + cbn [pinchState refsAfter previousState pinchDistance].
      unfold Rabs. destruct (Rcase_abs _); lra.
  - apply (throttle_emits_iff (refsAfter 1 (pinchState 0))
             (frameOf 2 [pinchHand 0.06]) (pinchState 0.06)).
    + apply Hgate.
    + cbn [frameOf detected newStateOf]. apply classify_pinchHand. lra.
    + apply Hflags.
    + cbn [pinchState refsAfter previousState pinchDistance].
      unfold Rabs. destruct (Rcase_abs _); lra.
Defined.

(** ** The control binding *)

Import App.

(** [setControls] touches the named key only. *)
Lemma setControls_frame (c : Controls) (p : Patch) :
  viewMode (setControls c p) = viewMode c
  /\ activeLayer (setControls c p) = activeLayer c
  /\ demStrength (setControls c p) = demStrength c
  /\ particlesEnabled (setControls c p) = particlesEnabled c
  /\ highlightColor (setControls c p) = highlightColor c
  /\ pvColor (setControls c p) = pvColor c.
Proof. destruct p; repeat split. Qed.

Lemma rotationControl_cases (g : HandGestureState) (c : Controls) :
  rotationControl g c =
  match isPalmOpen g, isFist g, autoRotate c with
  | true, _, false => [SetAutoRotate true]
  | false, true, true => [SetAutoRotate false]
  | _, _, _ => []
  end.
Proof.
  unfold rotationControl.
  destruct (isPalmOpen g), (isFist g), (autoRotate c); reflexivity.
Qed.

Lemma autoRotate_applyGesture (c : Controls) (g : HandGestureState) :
  autoRotate (applyGesture c g) =
  if isPalmOpen g then true else if isFist g then false else autoRotate c.
Proof.
  unfold applyGesture, gestureEffect, pinchControl.
  rewrite rotationControl_cases.
  destruct (isPalmOpen g), (isFist g), (autoRotate c) eqn:Ha,
    (isPinching g); cbn;
    try destruct (Js.gtb _ _); cbn; congruence.
Qed.

Lemma pvScale_applyGesture (c : Controls) (g : HandGestureState) :
  pvScale (applyGesture c g) =
  if isPinching g && Js.gtb (Rabs (newScaleOf c - pvScale c)) 0.01
  then newScaleOf c else pvScale c.
Proof.
  unfold applyGesture, gestureEffect, pinchControl.
  rewrite rotationControl_cases.
  destruct (isPalmOpen g), (isFist g), (autoRotate c), (isPinching g); cbn;
    try destruct (Js.gtb _ _); reflexivity.
Qed.

(** The clamp of [newScale], by cases on the current value. *)
Lemma newScaleOf_cases (c : Controls) :
  (pvScale c + 0.02 <= 0 -> newScaleOf c = 0)
  /\ (0 <= pvScale c + 0.02 <= 1 -> newScaleOf c = pvScale c + 0.02)
  /\ (1 <= pvScale c + 0.02 -> newScaleOf c = 1).
Proof.
  unfold newScaleOf, Rmin, Rmax.
  repeat split; intros H;
    destruct (Rle_dec 0 (pvScale c + 0.02));
    destruct (Rle_dec 1 _); lra.
Qed.

Lemma newScaleOf_bounds (c : Controls) : 0 <= newScaleOf c <= 1.
Proof.
  unfold newScaleOf, Rmin, Rmax.
  destruct (Rle_dec 0 (pvScale c + 0.02));
    destruct (Rle_dec 1 _); lra.
Qed.

(** From a value in [0, 1] the write guard passes exactly below 0.99. *)
Lemma pinch_guard_iff (c : Controls) :
  0 <= pvScale c <= 1 ->
  (Rabs (newScaleOf c - pvScale c) > 0.01 <-> pvScale c < 0.99).
Proof.
  intros Hc. destruct (newScaleOf_cases c) as (_ & H1 & H2).
  destruct (Rle_dec (pvScale c + 0.02) 1) as [Hle|Hgt].
  - rewrite H1 by lra. unfold Rabs. destruct (Rcase_abs _); lra.
  - rewrite H2 by lra. unfold Rabs. destruct (Rcase_abs _); lra.
Qed.

Lemma in_gestureEffect_autoRotate (g : HandGestureState) (c : Controls)
    (b : bool) :
  In (SetAutoRotate b) (gestureEffect g c) <->
  (b = true /\ isPalmOpen g = true /\ autoRotate c = false)
  \/ (b = false /\ isPalmOpen g = false /\ isFist g = true
      /\ autoRotate c = true).
Proof.
  unfold gestureEffect, pinchControl. rewrite in_app_iff, rotationControl_cases.
  destruct (isPalmOpen g), (isFist g), (autoRotate c), (isPinching g), b;
    cbn; try destruct (Js.gtb _ _); cbn;
    intuition (discriminate || congruence).
Qed.

Lemma in_gestureEffect_pvScale (g : HandGestureState) (c : Controls)
    (v : R) :
  In (SetPvScale v) (gestureEffect g c) <->
  isPinching g = true /\ v = newScaleOf c
  /\ Rabs (newScaleOf c - pvScale c) > 0.01.
Proof.
  unfold gestureEffect, pinchControl. rewrite in_app_iff, rotationControl_cases.
  rewrite <- gtb_true_iff.
  destruct (isPalmOpen g), (isFist g), (autoRotate c), (isPinching g);
    cbn; destruct (Js.gtb _ _); cbn;
    intuition (discriminate || congruence).
Qed.

(** C4: for a received gesture state (palm and fist are never raised
    together), the effect sets [autoRotate] to [true] exactly if [isPalmOpen]
    holds and [autoRotate] is [false]; else it sets [autoRotate] to [false]
    exactly if [isFist] holds and [autoRotate] is [true]; and it writes
    [newScale = clamp(pvScale + 0.02, 0, 1)] to [pvScale] exactly if
    [isPinching] holds and [|newScale - pvScale| > 0.01]. *)
Theorem binding_rules (g : HandGestureState) (c : Controls) :
  (isPalmOpen g = true -> isFist g = false) ->
  let newScale := Rmin 1 (Rmax 0 (pvScale c + 0.02)) in
  (In (SetAutoRotate true) (gestureEffect g c) <->
   isPalmOpen g = true /\ autoRotate c = false)
  /\ (In (SetAutoRotate false) (gestureEffect g c) <->
      ~ (isPalmOpen g = true /\ autoRotate c = false)
      /\ isFist g = true /\ autoRotate c = true)
  /\ (forall v, In (SetPvScale v) (gestureEffect g c) <->
      isPinching g = true /\ v = newScale
      /\ Rabs (newScale - pvScale c) > 0.01)
  /\ (isPalmOpen g = true -> autoRotate c = false ->
      autoRotate (applyGesture c g) = true)
  /\ (~ (isPalmOpen g = true /\ autoRotate c = false) ->
      isFist g = true -> autoRotate c = true ->
      autoRotate (applyGesture c g) = false)
  /\ (isPinching g = true -> Rabs (newScale - pvScale c) > 0.01 ->
      pvScale (applyGesture c g) = newScale)
  /\ (isPinching g = true -> Rabs (newScale - pvScale c) <= 0.01 ->
      pvScale (applyGesture c g) = pvScale c).
Proof.
  intros Hexcl newScale. fold (newScaleOf c) in newScale. subst newScale.
  split; [|split; [|split; [|split; [|split; [|split]]]]].
  - rewrite in_gestureEffect_autoRotate.
    intuition (discriminate || congruence).
  - rewrite in_gestureEffect_autoRotate.
    destruct (isPalmOpen g) eqn:Hp, (isFist g) eqn:Hf,
      (autoRotate c) eqn:Ha;
      try (specialize (Hexcl eq_refl); discriminate);
      intuition (discriminate || congruence).
  - intros v. apply in_gestureEffect_pvScale.
  - intros Hp _. rewrite autoRotate_applyGesture, Hp. reflexivity.
  - intros Hn Hf Ha. rewrite autoRotate_applyGesture, Hf.
    destruct (isPalmOpen g); [specialize (Hexcl eq_refl); congruence|].
    reflexivity.
  - intros Hp Hg. rewrite pvScale_applyGesture, Hp.
    apply gtb_true_iff in Hg. rewrite Hg. reflexivity.
  - intros Hp Hg. rewrite pvScale_applyGesture, Hp.
    apply gtb_false_iff in Hg. rewrite Hg. reflexivity.
Qed.

(** In every state the detection loop can emit, an open palm is not a
    fist. *)
Lemma emitted_palm_excludes_fist (hands : list (list NormalizedLandmark))
    (s : HandGestureState) :
  newStateOf hands = Some s -> isPalmOpen s = true -> isFist s = false.
Proof.
  destruct hands as [|landmarks hands]; cbn.
  - intros [= <-]. discriminate.
  - unfold classify.
    destruct (nth_error landmarks 4), (nth_error landmarks 8),
      (nth_error landmarks 20), (nth_error landmarks 0); try discriminate.
    intros [= <-]. cbn [isPalmOpen isFist].
    destruct (Js.ltb _ 0.15 && Js.ltb _ 0.15); [discriminate | reflexivity].
Qed.

(** A pinch received while the scale is at its initial 0.1 and the globe
    rotates: only [pvScale] is written, with 0.12. *)
Lemma binding_rules_witness :
  In (SetPvScale 0.12) (gestureEffect (pinchState 0.05) initialControls)
  /\ pvScale (applyGesture initialControls (pinchState 0.05)) = 0.12.
Proof.
  assert (Hn : Rmin 1 (Rmax 0 (0.1 + 0.02)) = 0.12).
  { unfold Rmin, Rmax. destruct (Rle_dec 0 (0.1 + 0.02));
      destruct (Rle_dec 1 _); lra. }
  assert (Hg : Rabs (0.12 - 0.1) > 0.01)
    by (unfold Rabs; destruct (Rcase_abs _); lra).
  destruct (binding_rules (pinchState 0.05) initialControls)
    as (_ & _ & Hw & _ & _ & Hv & _).
  - cbn. reflexivity.
  - cbn [initialControls pvScale] in Hw, Hv. rewrite Hn in Hw, Hv. split.
    + apply Hw. repeat split. exact Hg.
    + apply Hv; [reflexivity | exact Hg].
Defined.

Lemma fold_setControls_frame (ps : list Patch) (c : Controls) :
  let c' := fold_left setControls ps c in
  viewMode c' = viewMode c
  /\ activeLayer c' = activeLayer c
  /\ demStrength c' = demStrength c
  /\ particlesEnabled c' = particlesEnabled c
  /\ highlightColor c' = highlightColor c
  /\ pvColor c' = pvColor c.
Proof.
  revert c. induction ps as [|p ps IH]; intros c; cbn.
  - repeat split.
  - destruct (IH (setControls c p)) as (H1 & H2 & H3 & H4 & H5 & H6).
    destruct (setControls_frame c p) as (G1 & G2 & G3 & G4 & G5 & G6).
    repeat split; congruence.
Qed.

(** C10: one run of the gesture effect leaves every control other than
    [autoRotate] and [pvScale] as it was; [autoRotate] is written only with
    [true] when [isPalmOpen] holds and it was [false], or with [false] when
    [isPalmOpen] does not hold, [isFist] holds and it was [true]; [pvScale]
    is written only when [isPinching] holds and the 0.01 guard passes; and
    with all three flags [false] nothing is written and the controls are
    unchanged. *)
Theorem binding_frame (g : HandGestureState) (c : Controls) :
  let c' := applyGesture c g in
  (viewMode c' = viewMode c
   /\ activeLayer c' = activeLayer c
   /\ demStrength c' = demStrength c
   /\ particlesEnabled c' = particlesEnabled c
   /\ highlightColor c' = highlightColor c
   /\ pvColor c' = pvColor c)
  /\ (forall b, In (SetAutoRotate b) (gestureEffect g c) ->
      (b = true /\ isPalmOpen g = true /\ autoRotate c = false)
      \/ (b = false /\ isPalmOpen g = false /\ isFist g = true
          /\ autoRotate c = true))
  /\ (forall v, In (SetPvScale v) (gestureEffect g c) ->
      isPinching g = true /\ v = newScaleOf c
      /\ Rabs (newScaleOf c - pvScale c) > 0.01)
  /\ (autoRotate c' <> autoRotate c ->
      (isPalmOpen g = true /\ autoRotate c = false)
      \/ (isPalmOpen g = false /\ isFist g = true /\ autoRotate c = true))
  /\ (pvScale c' <> pvScale c ->
      isPinching g = true /\ Rabs (newScaleOf c - pvScale c) > 0.01)
  /\ (isPalmOpen g = false -> isFist g = false -> isPinching g = false ->
      gestureEffect g c = [] /\ c' = c).
Proof.
  intros c'. split; [|split; [|split; [|split; [|split]]]].
  - apply fold_setControls_frame.
  - intros b. apply in_gestureEffect_autoRotate.
  - intros v. apply in_gestureEffect_pvScale.
  - subst c'. rewrite autoRotate_applyGesture.
    destruct (isPalmOpen g), (isFist g), (autoRotate c);
      intuition congruence.
  - subst c'. rewrite pvScale_applyGesture, <- gtb_true_iff.
    destruct (isPinching g), (Js.gtb _ _); cbn; intuition congruence.
  - intros Hp Hf Hi.
    assert (He : gestureEffect g c = []).
    { unfold gestureEffect, rotationControl, pinchControl.
      rewrite Hp, Hf, Hi. reflexivity. }
    split; [exact He|]. subst c'. unfold applyGesture. rewrite He.
    reflexivity.
Qed.

(** The neutral state, received with the initial controls, writes nothing. *)
Lemma binding_frame_witness :
  gestureEffect neutral initialControls = []
  /\ applyGesture initialControls neutral = initialControls.
Proof.
  apply (binding_frame neutral initialControls); reflexivity.
Defined.

(** ** Repeated pinches *)

Lemma applyGestures_cons (c : Controls) (g : HandGestureState)
    (gs : list HandGestureState) :
  applyGestures c (g :: gs) = applyGestures (applyGesture c g) gs.
Proof. reflexivity. Qed.

(** One pinch, from a value in [0, 1]. *)
Lemma pinch_step (c : Controls) (g : HandGestureState) :
  0 <= pvScale c <= 1 -> isPinching g = true ->
  (pvScale c <= 0.98 -> pvScale (applyGesture c g) = pvScale c + 0.02)
  /\ (0.98 <= pvScale c < 0.99 -> pvScale (applyGesture c g) = 1)
  /\ (0.99 <= pvScale c -> pvScale (applyGesture c g) = pvScale c).
Proof.
  intros Hc Hg. rewrite pvScale_applyGesture, Hg. cbn [andb].
  pose proof (pinch_guard_iff c Hc) as Hguard.
  destruct (newScaleOf_cases c) as (_ & H1 & H2).
  destruct (Js.gtb _ _) eqn:E.
  - apply gtb_true_iff in E. apply Hguard in E.
    split; [|split]; intros H.
    + apply H1. lra.
    + apply H2. lra.
    + lra.
  - apply gtb_false_iff in E.
    assert (~ pvScale c < 0.99) by (intros H; apply Hguard in H; lra).
    split; [|split]; intros H'; lra.
Qed.

(** At 0.995 the clamp gives 1, the guard sees a difference of 0.005 and
    the write is skipped: however many pinches follow, the scale stays at
    0.995 and never reaches 1. *)
Lemma pinch_stuck_below_one :
  0 <= pvScale (setControls initialControls (SetPvScale 0.995)) <= 1
  /\ newScaleOf (setControls initialControls (SetPvScale 0.995)) = 1
  /\ forall n,
       pvScale (applyGestures
                  (setControls initialControls (SetPvScale 0.995))
                  (repeat (pinchState 0.05) n)) = 0.995
       /\ pvScale (applyGestures
                     (setControls initialControls (SetPvScale 0.995))
                     (repeat (pinchState 0.05) n)) <> 1.
Proof.
  split; [cbn; lra|]. split.
  { apply newScaleOf_cases. cbn. lra. }
  assert (H : forall n c, pvScale c = 0.995 ->
            pvScale (applyGestures c (repeat (pinchState 0.05) n)) = 0.995).
  { induction n as [|n IH]; intros c Hc; [exact Hc|].
    cbn [repeat]. rewrite applyGestures_cons. apply IH.
    destruct (pinch_step c (pinchState 0.05)) as (_ & _ & H3);
      [lra | reflexivity |].
    rewrite H3; lra. }
  intros n. rewrite H by reflexivity. split; lra.
Qed.

(** C6, as the code has it: starting from any [pvScale] in [0, 1], a
    sequence of pinching states keeps [pvScale] in [0, 1] and non-decreasing.
    A pinch is accepted exactly when [pvScale < 0.99]: it adds exactly 0.02
    while [pvScale <= 0.98] and otherwise sets [pvScale] to exactly 1 (no
    overshoot); from [pvScale >= 0.99] on, 1 included, nothing is written
    any more.  So [n] pinches add [0.02 * n] as long as that does not pass
    1. *)
Theorem pinch_scale_sequence (c : Controls) (gs : list HandGestureState) :
  0 <= pvScale c <= 1 ->
  Forall (fun g => isPinching g = true) gs ->
  let c' := applyGestures c gs in
  0 <= pvScale c' <= 1
  /\ pvScale c <= pvScale c'
  /\ (pvScale c + 0.02 * INR (List.length gs) <= 1 ->
      pvScale c' = pvScale c + 0.02 * INR (List.length gs))
  /\ (0.99 <= pvScale c -> pvScale c' = pvScale c)
  /\ (forall g, isPinching g = true ->
      (In (SetPvScale (newScaleOf c)) (gestureEffect g c) <->
       pvScale c < 0.99)
      /\ (pvScale c <= 0.98 -> pvScale (applyGesture c g) = pvScale c + 0.02)
      /\ (0.98 <= pvScale c < 0.99 -> pvScale (applyGesture c g) = 1)
      /\ (0.99 <= pvScale c -> pvScale (applyGesture c g) = pvScale c)).
Proof.
  intros Hc Hgs c'.
  assert (Hseq : 0 <= pvScale c' <= 1 /\ pvScale c <= pvScale c'
                 /\ (pvScale c + 0.02 * INR (List.length gs) <= 1 ->
                     pvScale c' = pvScale c + 0.02 * INR (List.length gs))
                 /\ (0.99 <= pvScale c -> pvScale c' = pvScale c)).
  { subst c'. revert c Hc.
    induction Hgs as [|g gs Hg _ IH]; intros c Hc.
    - cbn. repeat split; intros; lra.
    - rewrite applyGestures_cons.
      destruct (pinch_step c g Hc Hg) as (S1 & S2 & S3).
      assert (Hc1 : 0 <= pvScale (applyGesture c g) <= 1).
      { destruct (Rle_dec (pvScale c) 0.98);
          [rewrite S1 by lra; lra|].
        destruct (Rlt_dec (pvScale c) 0.99);
          [rewrite S2 by lra; lra | rewrite S3 by lra; lra]. }
      assert (Hm : pvScale c <= pvScale (applyGesture c g)).
      { destruct (Rle_dec (pvScale c) 0.98);
          [rewrite S1 by lra; lra|].
        destruct (Rlt_dec (pvScale c) 0.99);
          [rewrite S2 by lra; lra | rewrite S3 by lra; lra]. }
      destruct (IH _ Hc1) as (I1 & I2 & I3 & I4).
      split; [exact I1|]. split; [lra|]. split.
      + change (List.length (g :: gs)) with (S (List.length gs)). rewrite S_INR.
        intros Hle. pose proof (pos_INR (List.length gs)) as Hpos.
        rewrite I3; rewrite S1 by lra; lra.
      + intros H99. rewrite I4; rewrite S3 by lra; lra. }
  destruct Hseq as (H1 & H2 & H3 & H4).
  repeat (split; [assumption|]).
  intros g Hg. split; [|exact (pinch_step c g Hc Hg)].
  rewrite in_gestureEffect_pvScale, <- (pinch_guard_iff c Hc). tauto.
Qed.

(** From the initial 0.1, forty-five pinches bring the scale to exactly 1. *)
Lemma pinch_scale_sequence_witness :
  pvScale (applyGestures initialControls (repeat (pinchState 0.05) 45)) = 1.
Proof.
  destruct (pinch_scale_sequence initialControls
              (repeat (pinchState 0.05) 45)) as (_ & _ & H & _).
  - cbn. lra.
  - apply Forall_forall. intros g Hg. apply repeat_spec in Hg.
    rewrite Hg. reflexivity.
  - rewrite repeat_length in H.
    replace (INR 45) with 45 in H by (rewrite INR_IZR_INZ; reflexivity).
    rewrite H; cbn [initialControls pvScale]; lra.
Defined.

(** ** Projection *)

Import Three Earth.

(** C1: for every coordinate and radius [r], [project] returns exactly
    [(-(r sin phi cos theta), r cos phi, r sin phi sin theta)] with
    [phi = (90 - lat) pi / 180] and [theta = (lon + 180) pi / 180]; both
    components place their objects with it; and at [lat = 0], [lon = 0] the
    position is [(r, 0, 0)]: the y-component is zero, x carries the sign of
    [-(r sin phi cos theta)] with [sin phi = 1] and [cos theta = -1], and z
    is [r sin phi sin theta] with [sin theta = 0]. *)
Theorem project_formula (coord : LatLon) (r : R) :
  let phi := (90 - lat coord) * PI / 180 in
  let theta := (lon coord + 180) * PI / 180 in
  project coord r =
    {| x := - (r * sin phi * cos theta);
       y := r * cos phi;
       z := r * sin phi * sin theta |}
  /\ overlayPosition = project HOBQ_CENTER (EARTH_RADIUS + 0.3)
  /\ (forall s, stationPosition s = project (station s) (EARTH_RADIUS + 0.05))
  /\ project {| lat := 0; lon := 0 |} r = {| x := r; y := 0; z := 0 |}
  /\ sin ((90 - 0) * PI / 180) = 1
  /\ cos ((0 + 180) * PI / 180) = -1
  /\ sin ((0 + 180) * PI / 180) = 0
  /\ cos ((90 - 0) * PI / 180) = 0.
Proof.
  intros phi theta.
  assert (Hphi : (90 - lat coord) * (PI / 180) = phi)
    by (unfold phi; lra).
  assert (Htheta : (lon coord + 180) * (PI / 180) = theta)
    by (unfold theta; lra).
  assert (H90 : (90 - 0) * PI / 180 = PI / 2) by lra.
  assert (H180 : (0 + 180) * PI / 180 = PI) by lra.
  split; [unfold project; rewrite Hphi, Htheta; reflexivity|].
  split; [reflexivity|]. split; [reflexivity|].
  rewrite H90, H180, sin_PI2, cos_PI2, cos_PI, sin_PI.
  split; [|repeat split].
  unfold project; cbn [lat lon].
  replace ((90 - 0) * (PI / 180)) with (PI / 2) by lra.
  replace ((0 + 180) * (PI / 180)) with PI by lra.
  rewrite sin_PI2, cos_PI2, cos_PI, sin_PI. f_equal; ring.
Qed.

(** ** The smoothed batch scale *)

(** C8: on every frame with the mesh mounted, each component of the batch
    scale becomes [current + (1 + pvScale * 2 - current) * 0.1]; the gap to
    the target [1 + pvScale * 2] shrinks by the fixed factor and the scale
    equals the target after the frame only if it already did before. *)
Theorem frameScale_smooths (currentScale : Vector3) (scaleMultiplier : R) :
  let target := 1 + scaleMultiplier * 2 in
  let alpha := 0.1 in
  exists s,
    frameScale (Some currentScale) scaleMultiplier = Some s
    /\ x s = x currentScale + (target - x currentScale) * alpha
    /\ y s = y currentScale + (target - y currentScale) * alpha
    /\ z s = z currentScale + (target - z currentScale) * alpha
    /\ target - x s = (1 - alpha) * (target - x currentScale)
    /\ target - y s = (1 - alpha) * (target - y currentScale)
    /\ target - z s = (1 - alpha) * (target - z currentScale)
    /\ (x s = target <-> x currentScale = target)
    /\ (y s = target <-> y currentScale = target)
    /\ (z s = target <-> z currentScale = target).
Proof.
  intros target alpha. eexists. split; [reflexivity|].
  unfold lerp; cbn [x y z]. fold target. subst alpha.
  repeat split; intros; lra.
Qed.

(** ** Surface orientation *)

Section Orientation.

Variable coord : LatLon.

(** A projected point lies on the sphere of the given radius. *)
Lemma length_project (r : R) : 0 <= r -> length (project coord r) = r.
Proof.
  intros Hr. unfold length, project. cbn [x y z].
  set (phi := (90 - lat coord) * (PI / 180)).
  set (theta := (lon coord + 180) * (PI / 180)).
  apply sqrt_lem_1; [nra | assumption |].
  pose proof (sin2_cos2 phi) as Hp. pose proof (sin2_cos2 theta) as Ht.
  unfold Rsqr in Hp, Ht.
  replace (- (r * sin phi * cos theta) * - (r * sin phi * cos theta)
           + r * cos phi * (r * cos phi)
           + r * sin phi * sin theta * (r * sin phi * sin theta))
    with (r * r * (sin phi * sin phi
                   * (sin theta * sin theta + cos theta * cos theta)
                   + cos phi * cos phi)) by ring.
  rewrite Ht, Rmult_1_r, Hp. ring.
Qed.

(** Normalizing a projected point gives its projection on the unit
    sphere: the outward normal. *)
Lemma normalize_project (r : R) :
  0 < r -> normalize (project coord r) = project coord 1.
Proof.
  intros Hr. unfold normalize. rewrite length_project by lra.
  unfold Js.or_else. destruct (Req_dec_T r 0) as [E|_]; [lra|].
  unfold divideScalar, multiplyScalar, project. cbn [x y z].
  f_equal; field; lra.
Qed.

End Orientation.

Section UnitTarget.

Variables a b c : R.
Hypothesis Hunit : a * a + b * b + c * c = 1.

(** Away from the opposite direction the quaternion built from the up-axis
    rotates the up-axis onto the unit target. *)
Lemma rotate_up_onto (EPS : R) :
  0 < EPS -> EPS <= 1 + b ->
  applyQuaternion up (setFromUnitVectors EPS up {| x := a; y := b; z := c |})
  = {| x := a; y := b; z := c |}.
Proof.
  intros He Hb. unfold setFromUnitVectors, dot, up. cbn [x y z].
  assert (Hlt : Js.ltb (0 * a + 1 * b + 0 * c + 1) EPS = false)
    by (apply ltb_false_iff; lra).
  rewrite Hlt. unfold qnormalize, qlength. cbn [qx qy qz qw].
  set (S := (1 * c - 0 * b) * (1 * c - 0 * b)
            + (0 * a - 0 * c) * (0 * a - 0 * c)
            + (0 * b - 1 * a) * (0 * b - 1 * a)
            + (0 * a + 1 * b + 0 * c + 1) * (0 * a + 1 * b + 0 * c + 1)).
  assert (HS : S = 2 * (1 + b)) by (unfold S; nra).
  assert (Hpos : 0 < S) by lra.
  pose proof (sqrt_lt_R0 S Hpos) as Hl.
  pose proof (sqrt_def S (Rlt_le _ _ Hpos)) as Hsq.
  destruct (Req_dec_T (sqrt S) 0) as [E|_]; [lra|].
  set (k := 1 / sqrt S).
  assert (Hk : k * k * (2 * (1 + b)) = 1).
  { rewrite <- HS, <- Hsq. unfold k. field. lra. }
  unfold applyQuaternion. cbn [x y z qx qy qz qw]. f_equal.
  - transitivity (a * (k * k * (2 * (1 + b)))); [ring | rewrite Hk; ring].
  - transitivity (1 - k * k * (2 * (1 + b)) * (1 - b)
                  + 2 * k * k * (1 - (a * a + b * b + c * c)));
      [ring | rewrite Hk, Hunit; ring].
  - transitivity (c * (k * k * (2 * (1 + b)))); [ring | rewrite Hk; ring].
Qed.

End UnitTarget.

(** Within [EPS] of the opposite direction the library does not look at
    the target any more: the up-axis is turned onto the down-axis. *)
Lemma rotate_up_opposite (EPS : R) (target : Vector3) :
  1 + y target < EPS ->
  applyQuaternion up (setFromUnitVectors EPS up target)
  = {| x := 0; y := -1; z := 0 |}.
Proof.
  intros Hb. unfold setFromUnitVectors, dot, up. cbn [x y z].
  assert (Hlt : Js.ltb (0 * x target + 1 * y target + 0 * z target + 1) EPS
                = true) by (apply ltb_true_iff; lra).
  assert (Hgt : Js.gtb (Rabs 0) (Rabs 0) = false)
    by (apply gtb_false_iff; lra).
  rewrite Hlt, Hgt. unfold qnormalize, qlength. cbn [qx qy qz qw].
  assert (Hs : sqrt (0 * 0 + - 0 * - 0 + 1 * 1 + 0 * 0) = 1)
    by (apply sqrt_lem_1; lra).
  rewrite Hs. destruct (Req_dec_T 1 0) as [E|_]; [lra|].
  unfold applyQuaternion. cbn [x y z qx qy qz qw]. f_equal; field.
Qed.

Lemma project_unit_sq (coord : LatLon) :
  x (project coord 1) * x (project coord 1)
  + y (project coord 1) * y (project coord 1)
  + z (project coord 1) * z (project coord 1) = 1.
Proof.
  pose proof (length_project coord 1 Rle_0_1) as Hl. unfold length in Hl.
  set (S := x (project coord 1) * x (project coord 1)
            + y (project coord 1) * y (project coord 1)
            + z (project coord 1) * z (project coord 1)) in *.
  assert (HS : 0 <= S) by (unfold S; nra).
  rewrite <- (sqrt_def S HS), Hl. ring.
Qed.

(** Every latitude from the equator northwards is clear of the threshold,
    the generated stations (39.6 N to 40.4 N) included. *)
Lemma northern_latitudes_clear (EPS : R) (coord : LatLon) :
  EPS <= 1 -> 0 <= lat coord <= 90 ->
  EPS <= 1 + cos ((90 - lat coord) * (PI / 180)).
Proof.
  intros He Hl. pose proof PI_RGT_0 as Hpi.
  assert (0 <= cos ((90 - lat coord) * (PI / 180))); [|lra].
  apply cos_ge_0; nra.
Qed.

Lemma Number_EPSILON_bounds : 0 < Number_EPSILON <= 1.
Proof.
  unfold Number_EPSILON.
  assert (H : 1 <= 2 ^ 52) by (apply pow_R1_Rle; lra).
  split.
  - apply Rinv_0_lt_compat. lra.
  - rewrite <- Rinv_1. apply Rinv_le_contravar; lra.
Qed.



(** For a small angle, [1 - cos e] is below [e * e / 2]. *)
Lemma one_minus_cos_lt (e : R) : 0 < e < PI -> 1 - cos e < e * e / 2.
Proof.
  intros He. replace e with (2 * (e / 2)) at 1 by field.
  rewrite cos_2a_sin.
  assert (H0 : 0 < sin (e / 2)) by (apply sin_gt_0; lra).
  assert (H1 : sin (e / 2) < e / 2) by (apply sin_lt_x; lra).
  nra.
Qed.

(** Where the property stops: no coordinate the program holds comes near
    the south pole, but one ten-millionth of a degree north of it, on the
    date line, the outward normal is within [Number.EPSILON] of the
    down-axis without being the down-axis, and for that and every larger
    threshold the library's branch for opposite directions turns the
    up-axis onto the down-axis, not onto the normal. *)
Lemma south_cap_off (EPS : R) :
  Number_EPSILON <= EPS ->
  applyQuaternion up
    (surfaceOrientation EPS
       (project {| lat := -89.9999999; lon := -180 |} (EARTH_RADIUS + 0.05)))
  <> normalize
       (project {| lat := -89.9999999; lon := -180 |} (EARTH_RADIUS + 0.05)).
Proof.
  intros Heps.
  assert (Hr : 0 < EARTH_RADIUS + 0.05) by (unfold EARTH_RADIUS; lra).
  unfold surfaceOrientation. rewrite (normalize_project _ _ Hr).
  set (e := 0.0000001 * (PI / 180)).
  assert (Hphi : (90 - -89.9999999) * (PI / 180) = PI - e)
    by (unfold e; lra).
  assert (Htheta : (-180 + 180) * (PI / 180) = 0) by lra.
  pose proof PI_RGT_0 as Hpi0. pose proof PI_4 as Hpi4.
  assert (He : 0 < e < PI) by (unfold e; lra).
  assert (Hsmall : e <= 0.0000001 * (4 / 180)) by (unfold e; lra).
  assert (Hcos : 1 - cos e < Number_EPSILON).
  { apply Rlt_trans with (1 := one_minus_cos_lt e He).
    apply Rlt_le_trans with (/ 10 ^ 16).
    - assert (e * e <= 0.0000001 * (4 / 180) * (0.0000001 * (4 / 180)))
        by nra.
      cbn [pow]. lra.
    - unfold Number_EPSILON. apply Rinv_le_contravar.
      + apply pow_lt. lra.
      + cbn [pow]. lra. }
  rewrite rotate_up_opposite.
  - unfold project. cbn [lat lon]. rewrite Hphi, Htheta.
    rewrite sin_PI_x, cos_0. intros H. injection H as Hx _ _.
    assert (0 < sin e) by (apply sin_gt_0; lra). lra.
  - unfold project. cbn [y lat]. rewrite Hphi, Rtrigo_facts.cos_pi_minus. lra.
Qed.

(** * Further properties of the code *)

(** ** The detection loop *)

Import Loop.

(** A processed frame records its video time. *)
Lemma processed_records_time (refs : Refs) (f : Frame) :
  processed refs f ->
  lastVideoTime (fst (predictWebcam refs f)) = currentTime f.
Proof.
  intros (Hc & Hv & Hl & Hp & He & Hw & Hh & Ht). unfold predictWebcam.
  rewrite Hc, Hv, Hl, Hp, He. cbn [negb andb].
  apply gtb_true_iff in Hw, Hh. rewrite Hw, Hh. cbn [andb].
  apply neqb_true_iff in Ht. rewrite Ht.
  destruct (newStateOf (detected f)) as [s|]; [|reflexivity].
  destruct (throttle (previousState refs) s). reflexivity.
Qed.

Lemma neqb_refl (a : R) : Js.neqb a a = false.
Proof. unfold Js.neqb. destruct (Req_dec_T a a); congruence. Qed.

(** A frame whose video time is the recorded one is not looked at. *)
Lemma predictWebcam_same_time (refs : Refs) (f : Frame) :
  currentTime f = lastVideoTime refs -> predictWebcam refs f = (refs, None).
Proof.
  intros Ht. unfold predictWebcam. rewrite Ht, neqb_refl.
  destruct (cameraReady f && videoMounted f && landmarkerLoaded f
            && negb (paused f) && negb (ended f));
    [|reflexivity].
  destruct (Js.gtb (videoWidth f) 0 && Js.gtb (videoHeight f) 0);
    reflexivity.
Qed.

(** X1: The timestamp gate: once a frame has been processed, a call that sees
    the same video time again - whatever the detector would return for it -
    emits nothing and leaves the refs as they are. *)
Theorem same_time_not_reprocessed (refs : Refs) (f f' : Frame) :
  processed refs f ->
  currentTime f' = currentTime f ->
  predictWebcam (fst (predictWebcam refs f)) f'
  = (fst (predictWebcam refs f), None).
Proof.
  intros Hp Ht. apply predictWebcam_same_time.
  rewrite (processed_records_time refs f Hp). exact Ht.
Qed.

Lemma same_time_not_reprocessed_witness :
  predictWebcam
    (fst (predictWebcam initialRefs (frameOf 2 [pinchHand 0.03])))
    (frameOf 2 [pinchHand 0.07])
  = (fst (predictWebcam initialRefs (frameOf 2 [pinchHand 0.03])), None).
Proof.
  apply (same_time_not_reprocessed initialRefs (frameOf 2 [pinchHand 0.03])
           (frameOf 2 [pinchHand 0.07])).
  - unfold processed, initialRefs, frameOf; cbn. repeat split; lra.
  - reflexivity.
Defined.

(** A frame that fails one of the gates leaves the refs of the gesture
    logic alone and emits nothing. *)
Lemma unprocessed_frame_is_noop (refs : Refs) (f : Frame) :
  ~ processed refs f -> predictWebcam refs f = (refs, None).
Proof.
  intros Hn. unfold predictWebcam.
  destruct (cameraReady f) eqn:Hc, (videoMounted f) eqn:Hv,
    (landmarkerLoaded f) eqn:Hl, (paused f) eqn:Hp, (ended f) eqn:He;
    cbn [negb andb]; try reflexivity.
  destruct (Js.gtb (videoWidth f) 0) eqn:Hw; [|reflexivity].
  destruct (Js.gtb (videoHeight f) 0) eqn:Hh; [|reflexivity].
  cbn [andb].
  destruct (Js.neqb (currentTime f) (lastVideoTime refs)) eqn:Ht;
    [|reflexivity].
  exfalso. apply Hn. unfold processed.
  apply gtb_true_iff in Hw, Hh. apply neqb_true_iff in Ht. tauto.
Qed.

(** X2: A frame that fails one of the gates - camera not ready, video or
    landmarker missing, video paused or ended, a zero dimension, or an
    unchanged video time - emits nothing and leaves [lastVideoTimeRef] and
    [previousStateRef] as they are; the one ref the call writes is
    [requestRef], which takes the handle of the next requested frame, as it
    does on every call. *)
Theorem unprocessed_frame_only_reschedules (cr : CallRefs) (f f' : Frame)
    (handle : R) :
  ~ processed (gestureRefs cr) f ->
  predictWebcamCall cr f handle
  = ({| gestureRefs := gestureRefs cr; requestRef := handle |}, None)
  /\ requestRef (fst (predictWebcamCall cr f' handle)) = handle.
Proof.
  intros Hn. unfold predictWebcamCall. split.
  - rewrite (unprocessed_frame_is_noop _ _ Hn). reflexivity.
  - destruct (predictWebcam (gestureRefs cr) f'). reflexivity.
Qed.

(** A paused video: the pinch in the frame is not looked at. *)
Lemma unprocessed_frame_only_reschedules_witness :
  predictWebcamCall {| gestureRefs := initialRefs; requestRef := 7 |}
    {| cameraReady := true; videoMounted := true; landmarkerLoaded := true;
       paused := true; ended := false; videoWidth := 640;
       videoHeight := 480; currentTime := 2;
       detected := [pinchHand 0.03] |} 8
  = ({| gestureRefs := initialRefs; requestRef := 8 |}, None).
Proof.
  apply (unprocessed_frame_only_reschedules
           {| gestureRefs := initialRefs; requestRef := 7 |}
           {| cameraReady := true; videoMounted := true;
              landmarkerLoaded := true; paused := true; ended := false;
              videoWidth := 640; videoHeight := 480; currentTime := 2;
              detected := [pinchHand 0.03] |}
           (frameOf 3 []) 8).
  unfold processed; cbn. intros (_ & _ & _ & H & _). discriminate.
Defined.

(** The classifier needs index 20, hence 21 landmarks. *)
Lemma classify_None_iff (landmarks : list NormalizedLandmark) :
  classify landmarks = None <-> (List.length landmarks <= 20)%nat.
Proof.
  unfold classify. split.
  - destruct (nth_error landmarks 4) eqn:H4;
      [|apply nth_error_None in H4; lia].
    destruct (nth_error landmarks 8) eqn:H8;
      [|apply nth_error_None in H8; lia].
    destruct (nth_error landmarks 20) eqn:H20;
      [|apply nth_error_None in H20; lia].
    destruct (nth_error landmarks 0) eqn:H0;
      [discriminate | apply nth_error_None in H0; lia].
  - intros Hlen.
    assert (H20 : nth_error landmarks 20 = None)
      by (apply nth_error_None; exact Hlen).
    rewrite H20.
    destruct (nth_error landmarks 4), (nth_error landmarks 8); reflexivity.
Qed.

(** X3: A hand with fewer than 21 landmarks makes the classifier throw, and
    only such a hand does.  The frame is skipped: nothing is emitted and the
    reference state is kept, but the video time is recorded, so the frame is
    not tried again. *)
Theorem short_hand_skips_frame (refs : Refs) (f : Frame)
    (landmarks : list NormalizedLandmark)
    (others : list (list NormalizedLandmark)) :
  processed refs f ->
  detected f = landmarks :: others ->
  (classify landmarks = None <-> (List.length landmarks <= 20)%nat)
  /\ ((List.length landmarks <= 20)%nat ->
      predictWebcam refs f
      = ({| lastVideoTime := currentTime f;
            previousState := previousState refs |}, None)).
Proof.
  intros (Hc & Hv & Hl & Hp & He & Hw & Hh & Ht) Hd.
  split; [apply classify_None_iff|]. intros Hlen.
  apply classify_None_iff in Hlen. unfold predictWebcam.
  rewrite Hc, Hv, Hl, Hp, He. cbn [negb andb].
  apply gtb_true_iff in Hw, Hh. rewrite Hw, Hh. cbn [andb].
  apply neqb_true_iff in Ht. rewrite Ht, Hd. cbn [newStateOf].
  rewrite Hlen. reflexivity.
Qed.

Lemma short_hand_skips_frame_witness :
  predictWebcam (refsAfter 1 (pinchState 0.03))
    (frameOf 2 [repeat (at2 0.5 0.5) 20])
  = ({| lastVideoTime := 2; previousState := pinchState 0.03 |}, None).
Proof.
  apply (short_hand_skips_frame (refsAfter 1 (pinchState 0.03))
           (frameOf 2 [repeat (at2 0.5 0.5) 20])
           (repeat (at2 0.5 0.5) 20) []).
  - unfold processed, refsAfter, frameOf; cbn. repeat split; lra.
  - reflexivity.
  - cbn. lia.
Defined.

(** X4: After a processed frame the reference state - the last state the
    consumer was given - has the flags of the frame's new state, and its
    pinch distance is at most 0.05 away from the new one. *)
Theorem consumer_view_is_close (refs : Refs) (f : Frame)
    (newState : HandGestureState) :
  processed refs f ->
  newStateOf (detected f) = Some newState ->
  sameFlags (previousState (fst (predictWebcam refs f))) newState
  /\ Rabs (pinchDistance newState
           - pinchDistance (previousState (fst (predictWebcam refs f))))
     <= 0.05.
Proof.
  intros Hp Hn. rewrite (predictWebcam_processed refs f newState Hp Hn).
  destruct (hasChanged (previousState refs) newState) eqn:E;
    cbn [fst previousState].
  - split; [repeat split|].
    rewrite Rminus_diag, Rabs_R0. lra.
  - apply hasChanged_false_iff in E. exact E.
Qed.

Lemma consumer_view_is_close_witness :
  sameFlags
    (previousState
       (fst (predictWebcam (refsAfter 1 (pinchState 0.06))
               (frameOf 2 [pinchHand 0.03]))))
    (pinchState 0.03)
  /\ Rabs (pinchDistance (pinchState 0.03)
           - pinchDistance
               (previousState
                  (fst (predictWebcam (refsAfter 1 (pinchState 0.06))
                          (frameOf 2 [pinchHand 0.03])))))
     <= 0.05.
Proof.
  apply (consumer_view_is_close (refsAfter 1 (pinchState 0.06))
           (frameOf 2 [pinchHand 0.03]) (pinchState 0.03)).
  - unfold processed, refsAfter, frameOf; cbn. repeat split; lra.
  - cbn [frameOf detected newStateOf]. apply classify_pinchHand. lra.
Defined.

(** What a single call can do to the reference state. *)
Lemma predictWebcam_cases (refs : Refs) (f : Frame) :
  match snd (predictWebcam refs f) with
  | Some s =>
      hasChanged (previousState refs) s = true
      /\ previousState (fst (predictWebcam refs f)) = s
      /\ newStateOf (detected f) = Some s
  | None =>
      previousState (fst (predictWebcam refs f)) = previousState refs
  end.
Proof.
  unfold predictWebcam.
  destruct (cameraReady f && videoMounted f && landmarkerLoaded f
            && negb (paused f) && negb (ended f)); [|reflexivity].
  destruct (Js.gtb (videoWidth f) 0 && Js.gtb (videoHeight f) 0);
    [|reflexivity].
  destruct (Js.neqb (currentTime f) (lastVideoTime refs)); [|reflexivity].
  destruct (newStateOf (detected f)) as [s|]; [|reflexivity].
  unfold throttle.
  destruct (hasChanged (previousState refs) s) eqn:E; cbn; auto.
Qed.

Lemma run_cons (refs : Refs) (f : Frame) (rest : list Frame) :
  run refs (f :: rest)
  = (fst (run (fst (predictWebcam refs f)) rest),
     match snd (predictWebcam refs f) with
     | Some s => s :: snd (run (fst (predictWebcam refs f)) rest)
     | None => snd (run (fst (predictWebcam refs f)) rest)
     end).
Proof.
  cbn [run]. destruct (predictWebcam refs f) as [refs1 out].
  cbn [fst snd]. destruct (run refs1 rest) as [refs2 outs]. reflexivity.
Qed.

Lemma last_nonempty_default {A : Type} (h : A) (l : list A) (d d' : A) :
  last (h :: l) d = last (h :: l) d'.
Proof.
  revert h. induction l as [|k l IH]; intros h; [reflexivity|].
  change (last (k :: l) d = last (k :: l) d'). apply IH.
Qed.

(** X5: Over any sequence of frames: every emitted state passes the change
    test against the emission before it (the first against the reference
    state the loop started from), so no two consecutive emissions agree in
    all flags and lie within 0.05 in pinch distance; the reference state at
    the end is the last emission; every emitted state is the new state of
    one of the frames; and there is at most one emission per frame. *)
Theorem run_emissions (refs : Refs) (frames : list Frame) :
  eachChanged (previousState refs) (snd (run refs frames))
  /\ previousState (fst (run refs frames))
     = last (snd (run refs frames)) (previousState refs)
  /\ Forall (fun s => exists f, In f frames
                                /\ newStateOf (detected f) = Some s)
       (snd (run refs frames))
  /\ (List.length (snd (run refs frames)) <= List.length frames)%nat.
Proof.
  revert refs. induction frames as [|f rest IH]; intros refs.
  - cbn. split; [exact I|]. split; [reflexivity|].
    split; [constructor | lia].
  - rewrite run_cons. cbn [fst snd].
    pose proof (predictWebcam_cases refs f) as Hstep.
    destruct (IH (fst (predictWebcam refs f))) as (I1 & I2 & I3 & I4).
    assert (Hin : Forall (fun s => exists f0, In f0 (f :: rest)
                                   /\ newStateOf (detected f0) = Some s)
                    (snd (run (fst (predictWebcam refs f)) rest))).
    { eapply Forall_impl; [|exact I3]. intros s (f0 & Hf0 & Hs).
      exists f0. split; [right; exact Hf0 | exact Hs]. }
    destruct (snd (predictWebcam refs f)) as [s|].
    + destruct Hstep as (Hch & Hprev & Hnew). rewrite Hprev in I1, I2.
      split; [split; assumption|]. split.
      * rewrite I2.
        destruct (snd (run (fst (predictWebcam refs f)) rest)) as [|h l];
          [reflexivity|].
        change (last (h :: l) s = last (h :: l) (previousState refs)).
        apply last_nonempty_default.
      * split; [|cbn [List.length]; lia].
        constructor; [|exact Hin]. exists f. split; [left; reflexivity|].
        exact Hnew.
    + rewrite Hstep in I1, I2.
      split; [exact I1|]. split; [exact I2|].
      split; [exact Hin | cbn [List.length]; lia].
Qed.

Lemma classify_Some_tracked (landmarks : list NormalizedLandmark)
    (s : HandGestureState) :
  classify landmarks = Some s ->
  exists wrist thumbTip indexTip pinkyTip,
    tracked landmarks wrist thumbTip indexTip pinkyTip.
Proof.
  unfold classify, tracked.
  destruct (nth_error landmarks 4) as [t|]; [|discriminate].
  destruct (nth_error landmarks 8) as [i|]; [|discriminate].
  destruct (nth_error landmarks 20) as [p|]; [|discriminate].
  destruct (nth_error landmarks 0) as [w|]; [|discriminate].
  intros _. exists w, t, i, p. repeat split.
Qed.

(** X6: A hand that disappears is always reported: when the reference state
    came from a classified hand - whatever its flags - the first processed
    frame without a hand emits the neutral state. *)
Theorem hand_loss_is_emitted (refs : Refs) (f : Frame)
    (landmarks : list NormalizedLandmark) :
  processed refs f ->
  detected f = [] ->
  classify landmarks = Some (previousState refs) ->
  predictWebcam refs f
  = ({| lastVideoTime := currentTime f; previousState := neutral |},
     Some neutral).
Proof.
  intros Hp Hd Hc.
  rewrite (predictWebcam_processed refs f neutral Hp)
    by (rewrite Hd; reflexivity).
  assert (Hch : hasChanged (previousState refs) neutral = true).
  { destruct (classify_Some_tracked _ _ Hc) as (w & t & i & p & Ht).
    rewrite (classify_tracked _ _ _ _ _ Ht) in Hc.
    injection Hc as Hc. rewrite <- Hc. unfold hasChanged, neutral.
    cbn [isPalmOpen isFist isPinching pinchDistance].
    destruct (Js.ltb (pinchDistOf t i) 0.08) eqn:E.
    - rewrite !orb_true_iff. left. right. reflexivity.
    - apply ltb_false_iff in E. rewrite !orb_true_iff. right.
      apply gtb_true_iff. rewrite Rminus_0_r.
      unfold Rabs. destruct (Rcase_abs _); lra. }
  rewrite Hch. reflexivity.
Qed.

Lemma hand_loss_is_emitted_witness :
  predictWebcam (refsAfter 1 (pinchState 0.03)) (frameOf 2 [])
  = ({| lastVideoTime := 2; previousState := neutral |}, Some neutral).
Proof.
  apply (hand_loss_is_emitted (refsAfter 1 (pinchState 0.03))
           (frameOf 2 []) (pinchHand 0.03)).
  - unfold processed, refsAfter, frameOf; cbn. repeat split; lra.
  - reflexivity.
  - cbn [refsAfter previousState]. apply classify_pinchHand. lra.
Defined.

(** ** Symmetries of the classifier *)

Lemma Forall2_nth_error {A B : Type} (P : A -> B -> Prop)
    (l : list A) (l' : list B) (n : nat) :
  Forall2 P l l' ->
  match nth_error l n, nth_error l' n with
  | Some a, Some b => P a b
  | None, None => True
  | _, _ => False
  end.
Proof.
  intros H. revert n. induction H as [|a b l l' Hab _ IH]; intros n.
  - destruct n; exact I.
  - destruct n as [|n]; [exact Hab | apply IH].
Qed.

(** X7: Moving the whole hand in the image, and giving every landmark any
    depth [z] whatever, each on its own, changes neither the flags nor the
    pinch distance; only the cursor moves, mirrored in x.  With a zero
    offset: the classification does not depend on any [z]. *)
Theorem classify_offset_invariant (dx dy : R)
    (landmarks moved : list NormalizedLandmark) :
  Forall2 (movedBy dx dy) landmarks moved ->
  classify moved
  = option_map
      (fun s =>
         {| isPalmOpen := isPalmOpen s; isFist := isFist s;
            isPinching := isPinching s; pinchDistance := pinchDistance s;
            handPosition := {| px := px (handPosition s) - dx;
                               py := py (handPosition s) + dy |} |})
      (classify landmarks).
Proof.
  intros Hm. unfold classify.
  pose proof (Forall2_nth_error _ _ _ 4 Hm) as H4.
  pose proof (Forall2_nth_error _ _ _ 8 Hm) as H8.
  pose proof (Forall2_nth_error _ _ _ 20 Hm) as H20.
  pose proof (Forall2_nth_error _ _ _ 0 Hm) as H0.
  destruct (nth_error landmarks 4) as [t|],
           (nth_error moved 4) as [t'|]; try contradiction;
    [|reflexivity].
  destruct (nth_error landmarks 8) as [i|],
           (nth_error moved 8) as [i'|]; try contradiction;
    [|reflexivity].
  destruct (nth_error landmarks 20) as [p|],
           (nth_error moved 20) as [p'|]; try contradiction;
    [|reflexivity].
  destruct (nth_error landmarks 0) as [w|],
           (nth_error moved 0) as [w'|]; try contradiction;
    [|reflexivity].
  destruct H4 as [Htx Hty], H8 as [Hix Hiy], H20 as [Hpx Hpy],
    H0 as [Hwx Hwy].
  cbn [option_map isPalmOpen isFist isPinching pinchDistance
       handPosition px py].
  rewrite Htx, Hty, Hix, Hiy, Hpx, Hpy, Hwx, Hwy.
  replace (lx t + dx - (lx i + dx)) with (lx t - lx i) by ring.
  replace (ly t + dy - (ly i + dy)) with (ly t - ly i) by ring.
  replace (lx i + dx - (lx w + dx)) with (lx i - lx w) by ring.
  replace (ly i + dy - (ly w + dy)) with (ly i - ly w) by ring.
  replace (lx p + dx - (lx w + dx)) with (lx p - lx w) by ring.
  replace (ly p + dy - (ly w + dy)) with (ly p - ly w) by ring.
  replace (1 - (lx i + dx)) with (1 - lx i - dx) by ring.
  reflexivity.
Qed.

(** A pinching hand moved by (0.1, -0.2), each landmark at a depth of its
    own. *)
Lemma classify_offset_invariant_witness :
  classify
    (map (fun p => {| lx := lx p + 0.1; ly := ly p + -0.2;
                      lz := lx p + 3 * ly p |})
       (pinchHand 0.03))
  = option_map
      (fun s =>
         {| isPalmOpen := isPalmOpen s; isFist := isFist s;
            isPinching := isPinching s; pinchDistance := pinchDistance s;
            handPosition := {| px := px (handPosition s) - 0.1;
                               py := py (handPosition s) + -0.2 |} |})
      (classify (pinchHand 0.03)).
Proof.
  apply (classify_offset_invariant 0.1 (-0.2)).
  unfold pinchHand, handOf. cbn [app repeat map].
  repeat (constructor; [split; reflexivity|]). constructor.
Defined.

Lemma hypot_neg_l (a b : R) : Js.hypot (- a) b = Js.hypot a b.
Proof. unfold Js.hypot. f_equal. ring. Qed.

(** X8: A left-right mirrored hand is classified like the original: the same
    flags and pinch distance, the cursor mirrored. *)
Theorem classify_mirror_invariant (landmarks : list NormalizedLandmark) :
  classify (map mirror landmarks)
  = option_map
      (fun s =>
         {| isPalmOpen := isPalmOpen s; isFist := isFist s;
            isPinching := isPinching s; pinchDistance := pinchDistance s;
            handPosition := {| px := 1 - px (handPosition s);
                               py := py (handPosition s) |} |})
      (classify landmarks).
Proof.
  unfold classify. rewrite !nth_error_map.
  destruct (nth_error landmarks 4) as [t|]; [|reflexivity].
  destruct (nth_error landmarks 8) as [i|]; [|reflexivity].
  destruct (nth_error landmarks 20) as [p|]; [|reflexivity].
  destruct (nth_error landmarks 0) as [w|]; [|reflexivity].
  cbn [option_map mirror lx ly isPalmOpen isFist isPinching pinchDistance
       handPosition px py].
  replace (1 - lx t - (1 - lx i)) with (- (lx t - lx i)) by ring.
  replace (1 - lx i - (1 - lx w)) with (- (lx i - lx w)) by ring.
  replace (1 - lx p - (1 - lx w)) with (- (lx p - lx w)) by ring.
  rewrite !hypot_neg_l. reflexivity.
Qed.

(** ** The band between fist and palm *)

(** X9: A hand that does not pinch and whose index tip is between 0.15 and 0.2
    from the wrist raises no flag, wherever the pinky is; received by the
    gesture effect, such a state writes nothing, whatever the controls. *)
Theorem unknown_band_changes_nothing
    (landmarks : list NormalizedLandmark)
    (wrist thumbTip indexTip pinkyTip : NormalizedLandmark) :
  tracked landmarks wrist thumbTip indexTip pinkyTip ->
  0.08 <= pinchDistOf thumbTip indexTip ->
  0.15 <= wristDistOf indexTip wrist <= 0.2 ->
  exists s, classify landmarks = Some s
    /\ isPalmOpen s = false /\ isFist s = false /\ isPinching s = false
    /\ forall c, gestureEffect s c = [] /\ applyGesture c s = c.
Proof.
  intros Ht Hp [Hlo Hhi]. eexists.
  split; [apply (classify_tracked _ _ _ _ _ Ht)|].
  assert (E1 : Js.ltb (pinchDistOf thumbTip indexTip) 0.08 = false)
    by (apply ltb_false_iff; lra).
  assert (E2 : Js.ltb (wristDistOf indexTip wrist) 0.15 = false)
    by (apply ltb_false_iff; lra).
  assert (E3 : Js.gtb (wristDistOf indexTip wrist) 0.2 = false)
    by (apply gtb_false_iff; lra).
  cbn [isPalmOpen isFist isPinching]. rewrite E1, E2, E3.
  cbn [andb negb]. repeat split.
Qed.

Lemma unknown_band_changes_nothing_witness :
  exists s,
    classify (handOf (at2 0.5 0.68) (at2 0.3 0.5) (at2 0.5 0.5)
                (at2 0.7 0.6)) = Some s
    /\ isPalmOpen s = false /\ isFist s = false /\ isPinching s = false
    /\ forall c, gestureEffect s c = [] /\ applyGesture c s = c.
Proof.
  apply (unknown_band_changes_nothing
           (handOf (at2 0.5 0.68) (at2 0.3 0.5) (at2 0.5 0.5) (at2 0.7 0.6))
           (at2 0.5 0.68) (at2 0.3 0.5) (at2 0.5 0.5) (at2 0.7 0.6)).
  - repeat split.
  - assert (H : pinchDistOf (at2 0.3 0.5) (at2 0.5 0.5) = 0.2)
      by (unfold pinchDistOf, at2; cbn [lx ly]; apply hypot_eq; lra).
    rewrite H. lra.
  - assert (H : wristDistOf (at2 0.5 0.5) (at2 0.5 0.68) = 0.18)
      by (unfold wristDistOf, at2; cbn [lx ly]; apply hypot_eq; lra).
    rewrite H. lra.
Defined.

(** ** The gesture effect, run again and run in the application *)

(** X10: The rotation guard makes the first block idempotent: run a second time
    on the controls it produced, the effect makes no [autoRotate] write, and
    a state that does not pinch leaves those controls as they are.  (A
    pinching state is applied again: the pinch block is not idempotent.) *)
Theorem rotation_block_idempotent (g : HandGestureState) (c : Controls) :
  rotationControl g (applyGesture c g) = []
  /\ autoRotate (applyGesture (applyGesture c g) g)
     = autoRotate (applyGesture c g)
  /\ (isPinching g = false ->
      applyGesture (applyGesture c g) g = applyGesture c g).
Proof.
  assert (H1 : rotationControl g (applyGesture c g) = []).
  { rewrite rotationControl_cases, autoRotate_applyGesture.
    destruct (isPalmOpen g), (isFist g), (autoRotate c); reflexivity. }
  split; [exact H1|]. split.
  - rewrite !autoRotate_applyGesture.
    destruct (isPalmOpen g), (isFist g); reflexivity.
  - intros Hp. unfold applyGesture at 1. unfold gestureEffect.
    rewrite H1. unfold pinchControl. rewrite Hp. reflexivity.
Qed.

(** One effect run moves [pvScale] up by at most 0.02 and keeps it in
    [0, 1], whatever the state. *)
Lemma applyGesture_pvScale_step (c : Controls) (g : HandGestureState) :
  0 <= pvScale c <= 1 ->
  0 <= pvScale (applyGesture c g) <= 1
  /\ pvScale c <= pvScale (applyGesture c g) <= pvScale c + 0.02.
Proof.
  intros Hc. rewrite pvScale_applyGesture.
  destruct (newScaleOf_cases c) as (_ & H1 & H2).
  destruct (isPinching g && Js.gtb _ _); [|lra].
  destruct (Rle_dec (pvScale c + 0.02) 1).
  - rewrite H1 by lra. lra.
  - rewrite H2 by lra. lra.
Qed.

(** X11: A curled hand whose thumb tip touches the index tip raises the fist
    and the pinch flag together; received while the globe rotates and
    [pvScale] is at most 0.98, it stops the rotation and raises [pvScale] by
    0.02 in the same effect run. *)
Theorem fist_with_pinch_does_both
    (landmarks : list NormalizedLandmark)
    (wrist thumbTip indexTip pinkyTip : NormalizedLandmark) :
  tracked landmarks wrist thumbTip indexTip pinkyTip ->
  pinchDistOf thumbTip indexTip < 0.08 ->
  wristDistOf indexTip wrist < 0.15 ->
  wristDistOf pinkyTip wrist < 0.15 ->
  exists s, classify landmarks = Some s
    /\ forall c, autoRotate c = true -> 0 <= pvScale c <= 0.98 ->
       gestureEffect s c
       = [SetAutoRotate false; SetPvScale (pvScale c + 0.02)]
       /\ autoRotate (applyGesture c s) = false
       /\ pvScale (applyGesture c s) = pvScale c + 0.02.
Proof.
  intros Ht Hp Hi Hk. eexists.
  split; [apply (classify_tracked _ _ _ _ _ Ht)|].
  apply ltb_true_iff in Hp, Hi, Hk. rewrite Hp, Hi, Hk. cbn [andb negb].
  intros c Ha Hc.
  assert (Hn : newScaleOf c = pvScale c + 0.02)
    by (apply newScaleOf_cases; lra).
  assert (Hg : Js.gtb (Rabs (newScaleOf c - pvScale c)) 0.01 = true).
  { apply gtb_true_iff. rewrite Hn. unfold Rabs.
    destruct (Rcase_abs _); lra. }
  assert (He : gestureEffect
                 {| isPalmOpen := false; isFist := true; isPinching := true;
                    pinchDistance := pinchDistOf thumbTip indexTip;
                    handPosition := {| px := 1 - lx indexTip;
                                       py := ly indexTip |} |} c
               = [SetAutoRotate false; SetPvScale (pvScale c + 0.02)]).
  { unfold gestureEffect, rotationControl, pinchControl.
    cbn [isPalmOpen isFist isPinching]. rewrite Ha, Hg, Hn. reflexivity. }
  split; [exact He|]. unfold applyGesture. rewrite He. split; reflexivity.
Qed.

Lemma fist_with_pinch_does_both_witness :
  exists s,
    classify (handOf (at2 0.5 0.6) (at2 0.5 0.5) (at2 0.5 0.5)
                (at2 0.55 0.55)) = Some s
    /\ gestureEffect s initialControls
       = [SetAutoRotate false; SetPvScale (0.1 + 0.02)].
Proof.
  destruct (fist_with_pinch_does_both
              (handOf (at2 0.5 0.6) (at2 0.5 0.5) (at2 0.5 0.5)
                 (at2 0.55 0.55))
              (at2 0.5 0.6) (at2 0.5 0.5) (at2 0.5 0.5) (at2 0.55 0.55))
    as (s & Hs & Hc).
  - repeat split.
  - hypot_decide.
  - hypot_decide.
  - hypot_decide.
  - exists s. split; [exact Hs|].
    apply (Hc initialControls); [reflexivity | cbn; lra].
Defined.

Lemma onFrame_eq (m : Model) (f : Frame) :
  onFrame m f
  = match snd (predictWebcam (refs m) f) with
    | Some g =>
        {| refs := fst (predictWebcam (refs m) f); gestureState := g;
           controls := applyGesture (controls m) g |}
    | None =>
        {| refs := fst (predictWebcam (refs m) f);
           gestureState := gestureState m; controls := controls m |}
    end.
Proof.
  unfold onFrame. destruct (predictWebcam (refs m) f) as [r [g|]];
    reflexivity.
Qed.

Lemma onFrames_cons (m : Model) (f : Frame) (rest : list Frame) :
  onFrames m (f :: rest) = onFrames (onFrame m f) rest.
Proof. reflexivity. Qed.

(** X12: A pose that is held does not act again: as long as every frame's new
    state has the flags of the last emitted state and a pinch distance
    within 0.05 of it, no effect runs - the controls, the [gestureState] and
    the reference state stay as they are, however many frames pass. *)
Theorem held_pose_does_not_repeat (m : Model) (frames : list Frame) :
  (forall f s, In f frames -> newStateOf (detected f) = Some s ->
     sameFlags (previousState (refs m)) s
     /\ Rabs (pinchDistance s - pinchDistance (previousState (refs m)))
        <= 0.05) ->
  controls (onFrames m frames) = controls m
  /\ gestureState (onFrames m frames) = gestureState m
  /\ previousState (refs (onFrames m frames)) = previousState (refs m).
Proof.
  revert m. induction frames as [|f rest IH]; intros m Hheld.
  - repeat split.
  - rewrite onFrames_cons.
    assert (Hnone : snd (predictWebcam (refs m) f) = None).
    { pose proof (predictWebcam_cases (refs m) f) as Hc.
      destruct (snd (predictWebcam (refs m) f)) as [s|]; [|reflexivity].
      destruct Hc as (Hch & _ & Hnew).
      assert (Hf : hasChanged (previousState (refs m)) s = false)
        by (apply hasChanged_false_iff, (Hheld f s); [left|]; auto).
      congruence. }
    assert (Hstep : controls (onFrame m f) = controls m
                    /\ gestureState (onFrame m f) = gestureState m
                    /\ previousState (refs (onFrame m f))
                       = previousState (refs m)).
    { pose proof (predictWebcam_cases (refs m) f) as Hc.
      rewrite onFrame_eq. rewrite Hnone in *. cbn. auto. }
    destruct Hstep as (S1 & S2 & S3).
    destruct (IH (onFrame m f)) as (I1 & I2 & I3).
    { intros f0 s Hin Hs. rewrite S3. apply (Hheld f0 s); [right|]; auto. }
    repeat split; congruence.
Qed.

(** A pinch of 0.03 was acted on; the hand then wavers between 0.02 and
    0.07 for three frames: [pvScale] stays where it was. *)
Lemma held_pose_does_not_repeat_witness :
  controls
    (onFrames
       {| refs := refsAfter 1 (pinchState 0.03);
          gestureState := pinchState 0.03;
          controls := setControls initialControls (SetPvScale 0.12) |}
       [frameOf 2 [pinchHand 0.02]; frameOf 3 [pinchHand 0.07];
        frameOf 4 [pinchHand 0.05]])
  = setControls initialControls (SetPvScale 0.12).
Proof.
  apply (held_pose_does_not_repeat
           {| refs := refsAfter 1 (pinchState 0.03);
              gestureState := pinchState 0.03;
              controls := setControls initialControls (SetPvScale 0.12) |}
           [frameOf 2 [pinchHand 0.02]; frameOf 3 [pinchHand 0.07];
            frameOf 4 [pinchHand 0.05]]).
  intros f s Hin Hs. cbn [refs refsAfter previousState].
  assert (Hd : exists d, 0.02 <= d <= 0.07 /\ s = pinchState d).
  { destruct Hin as [<-|[<-|[<-|[]]]]; cbn [frameOf detected newStateOf] in Hs;
      rewrite classify_pinchHand in Hs by lra; injection Hs as <-;
      eexists; (split; [|reflexivity]); lra. }
  destruct Hd as (d & Hd & ->). split; [repeat split|].
  cbn [pinchState pinchDistance]. unfold Rabs. destruct (Rcase_abs _); lra.
Defined.

(** X13: Whatever the camera shows, gestures never lower [pvScale] and never
    touch a control other than [autoRotate] and [pvScale]: over any sequence
    of frames, [pvScale] stays in [0, 1], does not decrease, and rises by at
    most 0.02 per frame; and the [gestureState] shown by the application is
    always the reference state of the throttle. *)
Theorem frames_keep_controls_in_range (m : Model) (frames : list Frame) :
  0 <= pvScale (controls m) <= 1 ->
  0 <= pvScale (controls (onFrames m frames)) <= 1
  /\ pvScale (controls m) <= pvScale (controls (onFrames m frames))
  /\ pvScale (controls (onFrames m frames))
     <= pvScale (controls m) + 0.02 * INR (List.length frames)
  /\ viewMode (controls (onFrames m frames)) = viewMode (controls m)
  /\ activeLayer (controls (onFrames m frames)) = activeLayer (controls m)
  /\ demStrength (controls (onFrames m frames)) = demStrength (controls m)
  /\ particlesEnabled (controls (onFrames m frames))
     = particlesEnabled (controls m)
  /\ highlightColor (controls (onFrames m frames))
     = highlightColor (controls m)
  /\ pvColor (controls (onFrames m frames)) = pvColor (controls m)
  /\ (gestureState m = previousState (refs m) ->
      gestureState (onFrames m frames)
      = previousState (refs (onFrames m frames))).
Proof.
  revert m. induction frames as [|f rest IH]; intros m Hc.
  - cbn. repeat split; try lra. auto.
  - rewrite onFrames_cons.
    assert (Hstep :
      (0 <= pvScale (controls (onFrame m f)) <= 1
       /\ pvScale (controls m) <= pvScale (controls (onFrame m f))
          <= pvScale (controls m) + 0.02)
      /\ (viewMode (controls (onFrame m f)) = viewMode (controls m)
          /\ activeLayer (controls (onFrame m f)) = activeLayer (controls m)
          /\ demStrength (controls (onFrame m f)) = demStrength (controls m)
          /\ particlesEnabled (controls (onFrame m f))
             = particlesEnabled (controls m)
          /\ highlightColor (controls (onFrame m f))
             = highlightColor (controls m)
          /\ pvColor (controls (onFrame m f)) = pvColor (controls m))
      /\ (gestureState m = previousState (refs m) ->
          gestureState (onFrame m f) = previousState (refs (onFrame m f)))).
    { pose proof (predictWebcam_cases (refs m) f) as Hcase.
      rewrite onFrame_eq.
      destruct (snd (predictWebcam (refs m) f)) as [g|];
        cbn [controls gestureState refs].
      - destruct Hcase as (_ & Hprev & _).
        split; [apply applyGesture_pvScale_step; exact Hc|].
        split; [apply fold_setControls_frame|]. intros _. now rewrite Hprev.
      - split; [lra|]. split; [repeat split|]. intros H. now rewrite Hcase. }
    destruct Hstep as ((S1 & S2) & (F1 & F2 & F3 & F4 & F5 & F6) & SG).
    destruct (IH (onFrame m f) S1)
      as (I1 & I2 & I3 & G1 & G2 & G3 & G4 & G5 & G6 & IG).
    change (List.length (f :: rest)) with (S (List.length rest)).
    rewrite S_INR.
    split; [exact I1|]. split; [lra|]. split; [lra|].
    repeat (split; [congruence|]). intros H. apply IG, SG, H.
Qed.

Lemma frames_keep_controls_in_range_witness :
  0 <= pvScale (controls (onFrames initialModel
                            [frameOf 2 [pinchHand 0.03]; frameOf 3 []]))
    <= 1
  /\ viewMode (controls (onFrames initialModel
                           [frameOf 2 [pinchHand 0.03]; frameOf 3 []]))
     = CHINA.
Proof.
  destruct (frames_keep_controls_in_range initialModel
              [frameOf 2 [pinchHand 0.03]; frameOf 3 []])
    as (H1 & _ & _ & H2 & _).
  - cbn. lra.
  - split; [exact H1 | exact H2].
Defined.

(** ** Geometry of the projection *)

(** X14: A projected point lies on the sphere of radius [|r|] about the
    origin: every station at distance [EARTH_RADIUS + 0.05] and the overlay
    at [EARTH_RADIUS + 0.3], whatever the coordinate. *)
Theorem projected_point_on_sphere (coord : LatLon) (r : R)
    (s : PVStationData) :
  length (project coord r) = Rabs r
  /\ length (stationPosition s) = EARTH_RADIUS + 0.05
  /\ length overlayPosition = EARTH_RADIUS + 0.3.
Proof.
  split; [|split].
  - unfold length, project. cbn [x y z].
    set (phi := (90 - lat coord) * (PI / 180)).
    set (theta := (lon coord + 180) * (PI / 180)).
    pose proof (sin2_cos2 phi) as Hp. pose proof (sin2_cos2 theta) as Ht.
    unfold Rsqr in Hp, Ht.
    replace (- (r * sin phi * cos theta) * - (r * sin phi * cos theta)
             + r * cos phi * (r * cos phi)
             + r * sin phi * sin theta * (r * sin phi * sin theta))
      with (r * r * (sin phi * sin phi
                     * (sin theta * sin theta + cos theta * cos theta)
                     + cos phi * cos phi)) by ring.
    rewrite Ht, Rmult_1_r, Hp, Rmult_1_r. apply sqrt_Rsqr_abs.
  - apply length_project. unfold EARTH_RADIUS. lra.
  - apply length_project. unfold EARTH_RADIUS. lra.
Qed.

(** X15: Symmetries of the projection: a full turn in longitude gives the same
    point (so the two ends of the longitude range, -180 and 180, meet); the
    antipodal coordinate gives the opposite point; mirroring the latitude
    flips the height only; and at the poles the longitude does not matter. *)
Theorem project_symmetries (la lo r : R) :
  project {| lat := la; lon := lo + 360 |} r
  = project {| lat := la; lon := lo |} r
  /\ project {| lat := la; lon := 180 |} r
     = project {| lat := la; lon := -180 |} r
  /\ project {| lat := - la; lon := lo + 180 |} r
     = multiplyScalar (project {| lat := la; lon := lo |} r) (-1)
  /\ project {| lat := - la; lon := lo |} r
     = {| x := x (project {| lat := la; lon := lo |} r);
          y := - y (project {| lat := la; lon := lo |} r);
          z := z (project {| lat := la; lon := lo |} r) |}
  /\ project {| lat := 90; lon := lo |} r = {| x := 0; y := r; z := 0 |}
  /\ project {| lat := -90; lon := lo |} r = {| x := 0; y := - r; z := 0 |}.
Proof.
  assert (Hturn : forall t, sin (t + PI + PI) = sin t
                            /\ cos (t + PI + PI) = cos t).
  { intros t. rewrite !neg_sin, !neg_cos. split; ring. }
  assert (Hfull : forall l,
            project {| lat := la; lon := l + 360 |} r
            = project {| lat := la; lon := l |} r).
  { intros l. unfold project. cbn [lat lon].
    replace ((l + 360 + 180) * (PI / 180))
      with ((l + 180) * (PI / 180) + PI + PI) by lra.
    destruct (Hturn ((l + 180) * (PI / 180))) as [-> ->]. reflexivity. }
  split; [apply Hfull|]. split.
  { rewrite <- (Hfull (-180)). do 2 f_equal. lra. }
  split.
  { unfold project, multiplyScalar. cbn [lat lon x y z].
    replace ((90 - - la) * (PI / 180))
      with (PI - (90 - la) * (PI / 180)) by lra.
    replace ((lo + 180 + 180) * (PI / 180))
      with ((lo + 180) * (PI / 180) + PI) by lra.
    rewrite sin_PI_x, Rtrigo_facts.cos_pi_minus, neg_sin, neg_cos.
    f_equal; ring. }
  split.
  { unfold project. cbn [lat lon x y z].
    replace ((90 - - la) * (PI / 180))
      with (PI - (90 - la) * (PI / 180)) by lra.
    rewrite sin_PI_x, Rtrigo_facts.cos_pi_minus. f_equal; ring. }
  split.
  - unfold project. cbn [lat lon].
    replace ((90 - 90) * (PI / 180)) with 0 by lra.
    rewrite sin_0, cos_0. f_equal; ring.
  - unfold project. cbn [lat lon].
    replace ((90 - -90) * (PI / 180)) with PI by lra.
    rewrite sin_PI, cos_PI. f_equal; ring.
Qed.

(** X16: The latitude can be read back from the height of the projected point:
    [90 - acos (y / r)] in degrees. *)
Theorem latitude_from_height (coord : LatLon) (r : R) :
  -90 <= lat coord <= 90 -> 0 < r ->
  90 - acos (y (project coord r) / r) * (180 / PI) = lat coord.
Proof.
  intros Hl Hr. pose proof PI_RGT_0 as Hpi. unfold project. cbn [y].
  replace (r * cos ((90 - lat coord) * (PI / 180)) / r)
    with (cos ((90 - lat coord) * (PI / 180))) by (field; lra).
  rewrite acos_cos by (split; nra). field. lra.
Qed.

Lemma latitude_from_height_witness :
  90 - acos (y overlayPosition / (EARTH_RADIUS + 0.3)) * (180 / PI) = 40.2.
Proof.
  apply (latitude_from_height HOBQ_CENTER (EARTH_RADIUS + 0.3)).
  - cbn. lra.
  - unfold EARTH_RADIUS. lra.
Defined.

(** ** The orientation quaternion *)

Lemma sum4_sq_nonneg (a b c d : R) : 0 <= a * a + b * b + c * c + d * d.
Proof. nra. Qed.

Lemma qnormalize_unit (q : Quaternion) : qlength (qnormalize q) = 1.
Proof.
  unfold qnormalize.
  destruct (Req_dec_T (qlength q) 0) as [E|E].
  - unfold qlength. cbn [qx qy qz qw]. apply sqrt_lem_1; lra.
  - set (S := qx q * qx q + qy q * qy q + qz q * qz q + qw q * qw q).
    assert (HS : 0 <= S) by apply sum4_sq_nonneg.
    pose proof (sqrt_def S HS) as Hsq.
    assert (Hl : qlength q = sqrt S) by reflexivity.
    rewrite Hl in *. unfold qlength. cbn [qx qy qz qw].
    apply sqrt_lem_1; [apply sum4_sq_nonneg | lra |].
    transitivity (S * (1 / sqrt S * (1 / sqrt S))); [|unfold S; ring].
    rewrite <- Hsq at 1. field. exact E.
Qed.

(** X17: Whatever it is given - any threshold, any two vectors, unit or not -
    [setFromUnitVectors] returns a quaternion of length 1; so does the
    orientation of every position, the origin included. *)
Theorem orientation_is_unit (EPS : R) (vFrom vTo position : Vector3) :
  qlength (setFromUnitVectors EPS vFrom vTo) = 1
  /\ qlength (surfaceOrientation EPS position) = 1.
Proof.
  split; unfold surfaceOrientation, setFromUnitVectors; apply qnormalize_unit.
Qed.

(** X18: The orientation does not depend on the altitude: at one coordinate, a
    station (radius [EARTH_RADIUS + 0.05]) and the overlay (radius
    [EARTH_RADIUS + 0.3]) get the same quaternion. *)
Theorem orientation_ignores_radius (EPS : R) (coord : LatLon) (r1 r2 : R) :
  0 < r1 -> 0 < r2 ->
  surfaceOrientation EPS (project coord r1)
  = surfaceOrientation EPS (project coord r2).
Proof.
  intros H1 H2. unfold surfaceOrientation.
  rewrite (normalize_project coord r1 H1), (normalize_project coord r2 H2).
  reflexivity.
Qed.

Lemma orientation_ignores_radius_witness :
  surfaceOrientation Number_EPSILON
    (project HOBQ_CENTER (EARTH_RADIUS + 0.05))
  = overlayQuaternion Number_EPSILON.
Proof.
  apply (orientation_ignores_radius Number_EPSILON HOBQ_CENTER
           (EARTH_RADIUS + 0.05) (EARTH_RADIUS + 0.3));
    unfold EARTH_RADIUS; lra.
Defined.

(** ** The generated stations *)

Import Constants Scene.

Lemma mockStation_spec (rand : nat -> R) (n i : nat) :
  uniform rand ->
  (39.6 <= lat (station (fst (mockStation rand n i))) < 40.4
   /\ 106.25 <= lon (station (fst (mockStation rand n i))) < 108.75
   /\ 0.5 <= area (fst (mockStation rand n i)) < 5.5)
  /\ id (fst (mockStation rand n i)) = stationId i
  /\ (n + 4 <= snd (mockStation rand n i) <= n + 5)%nat.
Proof.
  intros Hu. pose proof (Hu n) as H0. pose proof (Hu (n + 1)%nat) as H1.
  pose proof (Hu (n + 2)%nat) as H2. unfold mockStation.
  destruct (Js.gtb (rand (n + 3)%nat) 0.8);
    [|destruct (Js.gtb (rand (n + 4)%nat) 0.5)];
    cbn [fst snd station lat lon area id]; repeat split; try lra; lia.
Qed.

Lemma mockStations_cons (rand : nat -> R) (n i k : nat) :
  mockStations rand n i (S k)
  = fst (mockStation rand n i)
    :: mockStations rand (snd (mockStation rand n i)) (S i) k.
Proof. cbn [mockStations]. destruct (mockStation rand n i). reflexivity. Qed.

Lemma mockStations_spec (rand : nat -> R) (count n i : nat) :
  uniform rand ->
  List.length (mockStations rand n i count) = count
  /\ Forall (fun s => 39.6 <= lat (station s) < 40.4
                      /\ 106.25 <= lon (station s) < 108.75
                      /\ 0.5 <= area s < 5.5)
       (mockStations rand n i count)
  /\ map id (mockStations rand n i count) = map stationId (seq i count).
Proof.
  intros Hu. revert n i. induction count as [|k IH]; intros n i.
  - cbn. repeat split. constructor.
  - rewrite mockStations_cons.
    destruct (mockStation_spec rand n i Hu) as (Hb & Hid & _).
    destruct (IH (snd (mockStation rand n i)) (S i)) as (I1 & I2 & I3).
    cbn [List.length map seq]. rewrite I1, I3, Hid.
    split; [reflexivity|]. split; [constructor; assumption | reflexivity].
Qed.

(** Every coordinate the program projects lies north of the equator: the
    overlay anchor, and every station of the generator whatever
    [Math.random] draws. *)
Lemma projected_coordinates_northern :
  0 <= lat HOBQ_CENTER <= 90
  /\ forall rand, uniform rand ->
       Forall (fun s => 0 <= lat (station s) <= 90) (MOCK_PV_STATIONS rand).
Proof.
  split; [cbn; lra|]. intros rand Hu.
  destruct (mockStations_spec rand 50 0 0 Hu) as (_ & Hall & _).
  eapply Forall_impl; [|exact Hall]. cbn beta. intros s (Hl & _). lra.
Qed.

Lemma stationId_inj (i j : nat) : stationId i = stationId j -> i = j.
Proof.
  unfold stationId. intros H. cbn in H. injection H as H.
  apply Unsigned.to_uint_inj.
  assert (Hs : Some (Nat.to_uint i) = Some (Nat.to_uint j))
    by (rewrite <- !NilEmpty.usu, H; reflexivity).
  now injection Hs.
Qed.

Lemma NoDup_map_injective {A B : Type} (f : A -> B) (l : list A) :
  (forall a b, f a = f b -> a = b) -> NoDup l -> NoDup (map f l).
Proof.
  intros Hinj Hl. induction Hl as [|a l Hnin Hl IH]; cbn; constructor.
  - intros Hin. apply in_map_iff in Hin. destruct Hin as (b & Hb & Hin).
    apply Hinj in Hb. subst b. contradiction.
  - exact IH.
Qed.

(** X19: Whatever [Math.random] draws, the generator yields exactly 50
    stations, each a valid coordinate inside the box 39.6..40.4 N,
    106.25..108.75 E with an area in [0.5, 5.5), and their ids ["pv-0"] to
    ["pv-49"] are pairwise distinct. *)
Theorem mock_stations_in_range (rand : nat -> R) :
  uniform rand ->
  List.length (MOCK_PV_STATIONS rand) = 50%nat
  /\ Forall (fun s => 39.6 <= lat (station s) < 40.4
                      /\ 106.25 <= lon (station s) < 108.75
                      /\ 0.5 <= area s < 5.5)
       (MOCK_PV_STATIONS rand)
  /\ map id (MOCK_PV_STATIONS rand) = map stationId (seq 0 50)
  /\ NoDup (map id (MOCK_PV_STATIONS rand)).
Proof.
  intros Hu. unfold MOCK_PV_STATIONS.
  destruct (mockStations_spec rand 50 0 0 Hu) as (H1 & H2 & H3).
  repeat (split; [assumption|]). rewrite H3.
  apply NoDup_map_injective; [apply stationId_inj | apply seq_NoDup].
Qed.

Lemma half_is_uniform : uniform (fun _ => 0.5).
Proof. intros k. lra. Qed.

Lemma mock_stations_in_range_witness :
  List.length (MOCK_PV_STATIONS (fun _ => 0.5)) = 50%nat
  /\ NoDup (map id (MOCK_PV_STATIONS (fun _ => 0.5))).
Proof.
  destruct (mock_stations_in_range (fun _ => 0.5)) as (H1 & _ & _ & H2).
  - intros k. lra.
  - split; [exact H1 | exact H2].
Defined.

(** Clear of the threshold, the quaternion built for a projected point
    turns the up-axis onto the normalized position. *)
Lemma orientation_clear (EPS : R) (coord : LatLon) (r : R) :
  0 < EPS -> 0 < r ->
  EPS <= 1 + cos ((90 - lat coord) * (PI / 180)) ->
  applyQuaternion up (surfaceOrientation EPS (project coord r))
  = normalize (project coord r).
Proof.
  intros He Hr Hfar. unfold surfaceOrientation.
  rewrite (normalize_project coord r Hr).
  pose proof (project_unit_sq coord) as Hu.
  unfold project in *. cbn [x y z] in *.
  apply rotate_up_onto; [exact Hu | exact He | lra].
Qed.

(** X20: Every station the generator can yield is placed right: for every
    outcome of the random draws and every threshold up to 1, each instance
    sits at distance [EARTH_RADIUS + 0.05] from the centre, its quaternion
    turns the up-axis onto its normalized position, and its scale is the
    same in all three directions, one of 0.1, 0.2 and 0.3. *)
Theorem mock_stations_placed (rand : nat -> R) (EPS : R) :
  uniform rand -> 0 < EPS <= 1 ->
  List.length (stationTransforms EPS (MOCK_PV_STATIONS rand)) = 50%nat
  /\ Forall (fun t =>
               length (position t) = EARTH_RADIUS + 0.05
               /\ applyQuaternion up (quaternion t) = normalize (position t)
               /\ exists size, scale t = {| x := size; y := size; z := size |}
                               /\ (size = 0.1 \/ size = 0.2 \/ size = 0.3))
       (stationTransforms EPS (MOCK_PV_STATIONS rand)).
Proof.
  intros Hu [He1 He2].
  destruct (mockStations_spec rand 50 0 0 Hu) as (Hlen & Hall & _).
  fold (MOCK_PV_STATIONS rand) in Hlen, Hall.
  unfold stationTransforms. rewrite length_map. split; [exact Hlen|].
  apply Forall_map. eapply Forall_impl; [|exact Hall].
  intros s (Hlat & _ & _). unfold stationTransform, stationPosition.
  cbn [position quaternion scale].
  assert (Hr : 0 < EARTH_RADIUS + 0.05) by (unfold EARTH_RADIUS; lra).
  split; [apply length_project; lra|]. split.
  - apply orientation_clear; [exact He1 | exact Hr |].
    apply northern_latitudes_clear; lra.
  - exists (stationSize s). split; [reflexivity|].
    unfold stationSize. destruct (type s); auto.
Qed.

Lemma mock_stations_placed_witness :
  List.length
    (stationTransforms Number_EPSILON (MOCK_PV_STATIONS (fun _ => 0.5)))
  = 50%nat.
Proof.
  destruct (mock_stations_placed (fun _ => 0.5) Number_EPSILON) as (H & _).
  - intros k. lra.
  - apply Number_EPSILON_bounds.
  - exact H.
Defined.

(** ** The frame loop of the scene *)

Lemma earthFrames_Some (n : nat) (ry : R) (a : bool) (v : ViewMode) :
  earthFrames n (Some ry) a v
  = Some (if a && isGlobal v then ry + 0.0005 * INR n else ry).
Proof.
  revert ry. induction n as [|n IH]; intros ry.
  - cbn [earthFrames INR]. destruct (a && isGlobal v); f_equal; lra.
  - cbn [earthFrames earthFrame]. rewrite S_INR.
    destruct (a && isGlobal v) eqn:E; rewrite IH; rewrite ?E;
      f_equal; lra.
Qed.

(** X21: The globe turns by 0.0005 per frame exactly while [autoRotate] is on
    and the view is the global one; in every other case, and while the
    sphere is not mounted, any number of frames leaves its rotation alone. *)
Theorem globe_rotation_after_frames (n : nat) (ry : R) (a : bool)
    (v : ViewMode) :
  earthFrames n (Some ry) a v
  = Some (if a && isGlobal v then ry + 0.0005 * INR n else ry)
  /\ earthFrames n None a v = None
  /\ earthFrames n (Some ry) false v = Some ry
  /\ (v <> GLOBAL -> earthFrames n (Some ry) a v = Some ry).
Proof.
  split; [apply earthFrames_Some|]. split.
  - induction n as [|n IH]; [reflexivity | exact IH].
  - split; [rewrite earthFrames_Some; reflexivity|].
    intros Hv. rewrite earthFrames_Some.
    destruct v; try contradiction; now rewrite andb_false_r.
Qed.

Lemma applyGestures_viewMode (gs : list HandGestureState) (c : Controls) :
  viewMode (applyGestures c gs) = viewMode c.
Proof.
  revert c. induction gs as [|g gs IH]; intros c; [reflexivity|].
  rewrite applyGestures_cons, IH. apply fold_setControls_frame.
Qed.

(** X22: Gestures cannot change the view: from controls whose view is not the
    global one - the initial China view for one - no sequence of gesture
    states makes the globe turn, open palms included. *)
Theorem gestures_cannot_start_rotation_outside_global
    (c : Controls) (gs : list HandGestureState) (n : nat) (ry : R) :
  viewMode c <> GLOBAL ->
  earthFrames n (Some ry) (autoRotate (applyGestures c gs))
    (viewMode (applyGestures c gs)) = Some ry.
Proof.
  intros Hv. rewrite applyGestures_viewMode, earthFrames_Some.
  destruct (viewMode c); try contradiction; now rewrite andb_false_r.
Qed.

Lemma gestures_cannot_start_rotation_outside_global_witness :
  earthFrames 100 (Some (- PI / 2))
    (autoRotate (applyGestures initialControls
                   [{| isPalmOpen := true; isFist := false;
                       isPinching := false; pinchDistance := 0.3;
                       handPosition := {| px := 0.5; py := 0.5 |} |}]))
    (viewMode (applyGestures initialControls
                 [{| isPalmOpen := true; isFist := false;
                     isPinching := false; pinchDistance := 0.3;
                     handPosition := {| px := 0.5; py := 0.5 |} |}]))
  = Some (- PI / 2).
Proof.
  apply (gestures_cannot_start_rotation_outside_global initialControls).
  cbn. discriminate.
Defined.

(** X23: A fist stops the globe: after the effect has run for a state with
    [isFist] and without [isPalmOpen], the globe's rotation stays where it
    is in every view, until another state is received. *)
Theorem fist_stops_globe (c : Controls) (g : HandGestureState) (n : nat)
    (ry : R) :
  isPalmOpen g = false -> isFist g = true ->
  autoRotate (applyGesture c g) = false
  /\ earthFrames n (Some ry) (autoRotate (applyGesture c g))
       (viewMode (applyGesture c g)) = Some ry.
Proof.
  intros Hp Hf.
  assert (Ha : autoRotate (applyGesture c g) = false)
    by (rewrite autoRotate_applyGesture, Hp, Hf; reflexivity).
  split; [exact Ha|]. rewrite earthFrames_Some, Ha. reflexivity.
Qed.

Lemma fist_stops_globe_witness :
  autoRotate
    (applyGesture initialControls
       {| isPalmOpen := false; isFist := true; isPinching := false;
          pinchDistance := 0.1;
          handPosition := {| px := 0.5; py := 0.5 |} |}) = false.
Proof.
  apply (fist_stops_globe initialControls
           {| isPalmOpen := false; isFist := true; isPinching := false;
              pinchDistance := 0.1;
              handPosition := {| px := 0.5; py := 0.5 |} |} 0 0);
    reflexivity.
Defined.

Lemma scaleFrames_cons (s : Vector3) (m : R) (rest : list R) :
  scaleFrames s (m :: rest)
  = scaleFrames
      (lerp s {| x := 1 + m * 2; y := 1 + m * 2; z := 1 + m * 2 |} 0.1)
      rest.
Proof. reflexivity. Qed.

(** X24: With the multiplier held, the gap between the batch scale and its
    target [1 + pvScale * 2] is multiplied by 0.9 on every frame: after [n]
    frames each component is [target - 0.9 ^ n * (target - start)].  The
    scale therefore stays between its start and the target and, unless it
    started there, never reaches the target. *)
Theorem smoothing_closed_form (s : Vector3) (m : R) (n : nat) :
  x (scaleFrames s (repeat m n)) = 1 + m * 2 - 0.9 ^ n * (1 + m * 2 - x s)
  /\ y (scaleFrames s (repeat m n)) = 1 + m * 2 - 0.9 ^ n * (1 + m * 2 - y s)
  /\ z (scaleFrames s (repeat m n)) = 1 + m * 2 - 0.9 ^ n * (1 + m * 2 - z s)
  /\ (x s <> 1 + m * 2 -> x (scaleFrames s (repeat m n)) <> 1 + m * 2)
  /\ (x s <= 1 + m * 2 ->
      x s <= x (scaleFrames s (repeat m n)) <= 1 + m * 2).
Proof.
  assert (Hform : forall k s0,
            x (scaleFrames s0 (repeat m k))
            = 1 + m * 2 - 0.9 ^ k * (1 + m * 2 - x s0)
            /\ y (scaleFrames s0 (repeat m k))
               = 1 + m * 2 - 0.9 ^ k * (1 + m * 2 - y s0)
            /\ z (scaleFrames s0 (repeat m k))
               = 1 + m * 2 - 0.9 ^ k * (1 + m * 2 - z s0)).
  { induction k as [|k IH]; intros s0.
    - cbn [repeat scaleFrames pow]. repeat split; ring.
    - cbn [repeat]. rewrite scaleFrames_cons.
      destruct (IH (lerp s0 {| x := 1 + m * 2; y := 1 + m * 2;
                               z := 1 + m * 2 |} 0.1)) as (Hx & Hy & Hz).
      rewrite Hx, Hy, Hz. unfold lerp. cbn [x y z pow].
      repeat split; lra. }
  destruct (Hform n s) as (Hx & Hy & Hz).
  assert (Hpos : 0 < 0.9 ^ n) by (apply pow_lt; lra).
  assert (Hle : 0.9 ^ n <= 1).
  { rewrite <- (pow1 n). apply pow_incr. lra. }
  repeat (split; [assumption|]). split.
  - intros Hne Heq. rewrite Hx in Heq.
    assert (0.9 ^ n * (1 + m * 2 - x s) = 0) by lra.
    apply Rmult_integral in H. destruct H; lra.
  - intros Hs. rewrite Hx. nra.
Qed.

(** X25: While [pvScale] stays in [0, 1] the batch scale stays in [1, 3] in
    every direction, however the multiplier changes from frame to frame, and
    a scale that is the same in all three directions stays so. *)
Theorem batch_scale_stays_in_range (s : Vector3) (multipliers : list R) :
  Forall (fun m => 0 <= m <= 1) multipliers ->
  1 <= x s <= 3 -> 1 <= y s <= 3 -> 1 <= z s <= 3 ->
  1 <= x (scaleFrames s multipliers) <= 3
  /\ 1 <= y (scaleFrames s multipliers) <= 3
  /\ 1 <= z (scaleFrames s multipliers) <= 3
  /\ (x s = y s -> y s = z s ->
      x (scaleFrames s multipliers) = y (scaleFrames s multipliers)
      /\ y (scaleFrames s multipliers) = z (scaleFrames s multipliers)).
Proof.
  intros Hms. revert s.
  induction Hms as [|m rest Hm _ IH]; intros s Hx Hy Hz.
  - cbn [scaleFrames]. auto.
  - rewrite scaleFrames_cons.
    set (s1 := lerp s {| x := 1 + m * 2; y := 1 + m * 2;
                         z := 1 + m * 2 |} 0.1).
    assert (H1 : 1 <= x s1 <= 3) by (unfold s1, lerp; cbn [x y z]; lra).
    assert (H2 : 1 <= y s1 <= 3) by (unfold s1, lerp; cbn [x y z]; lra).
    assert (H3 : 1 <= z s1 <= 3) by (unfold s1, lerp; cbn [x y z]; lra).
    destruct (IH s1 H1 H2 H3) as (I1 & I2 & I3 & I4).
    repeat (split; [assumption|]). intros Exy Eyz. apply I4.
    + unfold s1, lerp; cbn [x y z]. lra.
    + unfold s1, lerp; cbn [x y z]. lra.
Qed.

(** From the initial scale, with [pvScale] raised from 0.1 to 0.12 by a
    pinch. *)
Lemma batch_scale_stays_in_range_witness :
  1 <= x (scaleFrames unitScale [0.1; 0.1; 0.12; 0.12]) <= 3.
Proof.
  destruct (batch_scale_stays_in_range unitScale [0.1; 0.1; 0.12; 0.12])
    as (H & _).
  - repeat constructor; lra.
  - cbn. lra.
  - cbn. lra.
  - cbn. lra.
  - exact H.
Defined.
